(** * ContentCurator: the selection-and-ranking pipeline

    A shallow embedding of the parts of the repository that score, window,
    select, merge and format posts:

    - [utils.py]: [calculate_interaction_score], [format_post_caption],
      [validate_post_data];
    - [main.py]: [fetch_top_posts_with_client];
    - [scrapers/telegram_scraper.py]: [fetch_top_posts_last_24h].

    Python integers are [Z]; Python [str] values are lists of Unicode code
    points ([list N]); Python floats are IEEE-754 binary64 values, taken from
    the Standard Library's [SpecFloat]; a datetime is the instant it denotes,
    in microseconds since the epoch (all datetimes in the program are
    timezone-aware and are compared as instants). *)

From Stdlib Require Import ZArith Lia Bool Ascii String SpecFloat.
From stdpp Require Import gmap strings list sorting.

Open Scope Z_scope.

(** ** Python values shared by the modules *)

(** A Python [str]: a sequence of code points. *)
Abbreviation pystr := (list N).

(** A [str] literal of the source, given by its (ASCII) characters. *)
Definition str (s : string) : pystr :=
  map N_of_ascii (list_ascii_of_string s).

(** Outcome of an expression that may raise; [Raise] carries [str(e)]. *)
Inductive pyresult (A : Type) : Type :=
  | Ok (a : A)
  | Raise (e : pystr).
Arguments Ok {A} a.
Arguments Raise {A} e.

(** [len(l)] *)
Definition len {A} (l : list A) : Z := Z.of_nat (length l).

(** [l[:k]] *)
Definition slice_to {A} (k : Z) (l : list A) : list A :=
  if 0 <=? k then take (Z.to_nat k) l
  else take (length l - Z.to_nat (- k)) l.

(** ** Floats: [int * float], [math.ceil], [int(float)] *)

Module PyFloat.

(** binary64 *)
Definition prec : Z := 53.
Definition emax : Z := 1024.

(** The literal [0.2]: the double nearest to 1/5,
    7205759403792794 * 2^-55 = 0x1.999999999999ap-3. *)
Definition top_percentage : spec_float :=
  S754_finite false 7205759403792794 (-55).

(** Conversion of an [int] operand to [float]: correctly rounded (ties to
    even); [OverflowError] when the magnitude is out of range. *)
Definition float_of_int (n : Z) : pyresult spec_float :=
  match binary_normalize prec emax n 0 false with
  | S754_infinity _ => Raise (str "int too large to convert to float")
  | f => Ok f
  end.

(** [x * y] on floats. *)
Definition float_mul (x y : spec_float) : spec_float := SFmul prec emax x y.

(** [n * y] for an [int] n and a [float] y. *)
Definition int_mul_float (n : Z) (y : spec_float) : pyresult spec_float :=
  match float_of_int n with
  | Ok f => Ok (float_mul f y)
  | Raise e => Raise e
  end.

(** The integer value m * 2^e of a finite float's magnitude, rounded up or
    down to an integer. *)
Definition signed_mantissa (s : bool) (m : positive) : Z :=
  if s then Z.neg m else Z.pos m.

(** [math.ceil(x)] *)
Definition math_ceil (x : spec_float) : pyresult Z :=
  match x with
  | S754_zero _ => Ok 0
  | S754_finite s m e =>
      if 0 <=? e then Ok (signed_mantissa s m * 2 ^ e)
      else Ok (- ((- signed_mantissa s m) / 2 ^ (- e)))
  | S754_infinity _ => Raise (str "cannot convert float infinity to integer")
  | S754_nan => Raise (str "cannot convert float NaN to integer")
  end.

(** [int(x)]: truncation toward zero. *)
Definition int_of_float (x : spec_float) : pyresult Z :=
  match x with
  | S754_zero _ => Ok 0
  | S754_finite s m e =>
      if 0 <=? e then Ok (signed_mantissa s m * 2 ^ e)
      else Ok (Z.quot (signed_mantissa s m) (2 ^ (- e)))
  | S754_infinity _ => Raise (str "cannot convert float infinity to integer")
  | S754_nan => Raise (str "cannot convert float NaN to integer")
  end.

(** What [k] steps of [SpecFloat]'s [shr_1] leave of a mantissa [m]: the
    quotient by 2^k, with the round and sticky bits describing the
    remainder. *)
Definition shr_inv (m : Z) (k : nat) (mrs : shr_record) : Prop :=
  0 <= shr_m mrs /\
  exists sp, 0 <= sp < 2 ^ Z.of_nat k /\ shr_s mrs = negb (sp =? 0) /\
    2 * m = shr_m mrs * 2 ^ (Z.of_nat k + 1)
            + (if shr_r mrs then 2 ^ Z.of_nat k else 0) + sp.

End PyFloat.

(** ** Strings: [str.strip], [str.replace], [html.escape] *)

Module PyStr.

(** [str.isspace] on one code point: the code points Python treats as
    whitespace. *)
Definition isspace (c : N) : bool :=
  ((9 <=? c) && (c <=? 13) || (28 <=? c) && (c <=? 32)
   || (c =? 133) || (c =? 160) || (c =? 5760)
   || (8192 <=? c) && (c <=? 8202)
   || (c =? 8232) || (c =? 8233) || (c =? 8239) || (c =? 8287)
   || (c =? 12288))%N.

Fixpoint lstrip (s : pystr) : pystr :=
  match s with
  | c :: s' => if isspace c then lstrip s' else s
  | [] => []
  end.

Definition rstrip (s : pystr) : pystr := reverse (lstrip (reverse s)).

(** [s.strip()] *)
Definition strip (s : pystr) : pystr := rstrip (lstrip s).

(** [s.replace(old, new)] for a one-character [old]. *)
Definition replace (old : N) (new : pystr) (s : pystr) : pystr :=
  flat_map (fun c => if (c =? old)%N then new else [c]) s.

(** [html.escape(s)] with its default [quote=True]: the ampersand first,
    then the angle brackets, then both quote characters. *)
Definition escape (s : pystr) : pystr :=
  let s := replace 38 (str "&amp;") s in
  let s := replace 60 (str "&lt;") s in
  let s := replace 62 (str "&gt;") s in
  let s := replace 34 (str "&quot;") s in
  let s := replace 39 (str "&#x27;") s in
  s.

End PyStr.

(** ** [utils.py] *)

Module Utils.

(** Values a post dict may hold. *)
Inductive pyval : Type :=
  | PNone
  | PBool (b : bool)
  | PInt (z : Z)
  | PStr (s : pystr).

Definition placeholder : pystr := str "[Media post without text]".

(** The text that follows [{original_text}] in the f-string: two newlines
    and the blockquote footer. *)
Definition footer : pystr :=
  [10; 10]%N ++ str "<blockquote>powered by Sinus-Alpha</blockquote>".

(** [format_post_caption(post)]. [html.escape] raises on a value that is
    not a [str]. *)
Definition format_post_caption (post : gmap string pyval) : pyresult pystr :=
  match default (PStr []) (post !! "text"%string) with
  | PStr text =>
      let original_text := PyStr.escape text in
      let original_text :=
        match PyStr.strip original_text with
        | [] => placeholder
        | _ :: _ => original_text
        end in
      Ok (original_text ++ footer)
  | PNone => Raise (str "'NoneType' object has no attribute 'replace'")
  | PBool _ => Raise (str "'bool' object has no attribute 'replace'")
  | PInt _ => Raise (str "'int' object has no attribute 'replace'")
  end.

(** [calculate_interaction_score(views, forwards, reactions=0)];
    [None] for [reactions] is the omitted argument. *)
Definition calculate_interaction_score
    (views forwards : Z) (reactions : option Z) : Z :=
  let reactions := default 0 reactions in
  views + (forwards * 2) + (reactions * 3).

Definition required_fields : list string :=
  ["channel"; "id"; "text"; "views"; "forwards"; "has_media"]%string.

(** [validate_post_data(post)] *)
Definition validate_post_data (post : gmap string pyval) : bool :=
  forallb (fun field => bool_decide (is_Some (post !! field))) required_fields.

End Utils.

(** ** [list.sort(key=..., reverse=True)]

    Python's sort is stable, and with [reverse=True] elements with equal keys
    keep their original order. The sort is modelled by insertion: an element
    is placed in front of the first element of the already sorted tail whose
    key is not greater than its own. *)

Section Sort.
Context {A : Type} (key : A -> Z).

Fixpoint insert_desc (x : A) (l : list A) : list A :=
  match l with
  | [] => [x]
  | y :: l' => if key x <? key y then y :: insert_desc x l' else x :: l
  end.

Fixpoint sort_desc (l : list A) : list A :=
  match l with
  | [] => []
  | x :: l' => insert_desc x (sort_desc l')
  end.

(** [desc a b]: [a] may stand before [b] in a descending order. *)
Definition desc (a b : A) : Prop := key b <= key a.

(** The elements with key [s], in the order they have in [l]. *)
Definition with_key (s : Z) (l : list A) : list A :=
  filter (fun a => key a = s) l.
End Sort.

(** ** The data of the pipeline *)

(** What the pipeline reads of a Telethon message. [None] stands for an
    attribute that is absent or [None]. *)
Record message : Type := Message {
  msg_id : Z;
  msg_date : Z;
  msg_message : option pystr;
  msg_views : option Z;
  msg_forwards : option Z;
  msg_media : option Z
}.

(** The [post_data] dict built for a message: its eight keys are fixed, so it
    is a record. [date] keeps the instant that [msg.date.isoformat()]
    renders. *)
Record post : Type := Post {
  channel : pystr;
  text : pystr;
  views : Z;
  forwards : Z;
  interaction_score : Z;
  date : Z;
  id : Z;
  has_media : bool
}.

(** What the client answers for one channel: the messages of
    [get_messages], most recent first, or the exception raised by
    [get_entity] or [get_messages]. *)
Inductive fetch_result : Type :=
  | FetchOk (messages : list message)
  | FetchRaises (e : pystr).

(** The client, as far as one run observes it. *)
Definition client_t : Type := pystr -> Z -> fetch_result.

(** [timedelta(hours=24)], in microseconds. *)
Definition hours_24 : Z := 24 * 3600 * 1000000.

(** [x or 0] on a counter. *)
Definition or_zero (x : option Z) : Z :=
  match x with
  | Some v => if v =? 0 then 0 else v
  | None => 0
  end.

(** [msg.message or ''] : the empty string for [None] or an empty message. *)
Definition or_empty (x : option pystr) : pystr :=
  match x with
  | Some (c :: s) => c :: s
  | Some [] => []
  | None => []
  end.

(** The body of the [if msg.date >= cutoff_time] branch. *)
Definition make_post (channel : pystr) (msg : message) : post :=
  let views := or_zero (msg_views msg) in
  let forwards := or_zero (msg_forwards msg) in
  let interaction_score := Utils.calculate_interaction_score views forwards None in
  {| channel := channel;
     text := or_empty (msg_message msg);
     views := views;
     forwards := forwards;
     interaction_score := interaction_score;
     date := msg_date msg;
     id := msg_id msg;
     has_media := bool_decide (is_Some (msg_media msg)) |}.

(** The [for msg in messages] loop of both modules: posts are appended while
    [msg.date >= cutoff_time]; the first older message ends the loop. *)
Fixpoint collect_recent (channel : pystr) (cutoff_time : Z)
    (messages : list message) : list post :=
  match messages with
  | [] => []
  | msg :: rest =>
      if cutoff_time <=? msg_date msg
      then make_post channel msg :: collect_recent channel cutoff_time rest
      else []
  end.

(** The post as the dict that [utils.py] receives. *)
Definition post_to_dict (isoformat : Z -> pystr) (p : post)
    : gmap string Utils.pyval :=
  <["channel"%string := Utils.PStr (channel p)]>
  (<["text"%string := Utils.PStr (text p)]>
  (<["views"%string := Utils.PInt (views p)]>
  (<["forwards"%string := Utils.PInt (forwards p)]>
  (<["interaction_score"%string := Utils.PInt (interaction_score p)]>
  (<["date"%string := Utils.PStr (isoformat (date p))]>
  (<["id"%string := Utils.PInt (id p)]>
  (<["has_media"%string := Utils.PBool (has_media p)]> ∅))))))).

(** ** [main.py]: [fetch_top_posts_with_client] *)

Module Main.

(** An entry of [all_posts_by_channel]. *)
Record channel_data : Type := ChannelData {
  total_posts : Z;
  selected_posts : Z;
  posts : list post;
  error : option pystr
}.

(** [all_posts_by_channel]: a dict iterated in insertion order. Assigning
    to a key that is present replaces its value where it stands. *)
Fixpoint dict_set {V} (k : pystr) (v : V) (d : list (pystr * V))
    : list (pystr * V) :=
  match d with
  | [] => [(k, v)]
  | (k', v') :: d' =>
      if decide (k' = k) then (k, v) :: d' else (k', v') :: dict_set k v d'
  end.

Fixpoint dict_get {V} (k : pystr) (d : list (pystr * V)) : option V :=
  match d with
  | [] => None
  | (k', v') :: d' => if decide (k' = k) then Some v' else dict_get k d'
  end.

(** The calls to [logger], one constructor per call site. *)
Inductive log_event : Type :=
  | InfoStart (channels : Z)
  | InfoCutoff (cutoff_time : Z)
  | InfoProcessing (channel : pystr)
  | InfoSelected (count total : Z) (channel : pystr)
  | InfoNoRecent (channel : pystr)
  | ErrorFetchFailed (channel : pystr) (e : pystr)
  | InfoFinal (selected total channels : Z)
  | InfoSummarySelected (channel : pystr) (selected total : Z)
  | WarningSummaryError (channel : pystr) (e : pystr)
  | InfoSummaryEmpty (channel : pystr)
  | InfoSaved
  | ErrorSaveFailed (e : pystr).

(** [max(1, math.ceil(len(channel_posts) * top_percentage))] *)
Definition channel_top_count (n : Z) : pyresult Z :=
  match PyFloat.int_mul_float n PyFloat.top_percentage with
  | Raise e => Raise e
  | Ok x =>
      match PyFloat.math_ceil x with
      | Raise e => Raise e
      | Ok c => Ok (Z.max 1 c)
      end
  end.

(** Lines 232-254: sort, count, slice, and the entry with its log line. *)
Definition select_top (channel : pystr) (channel_posts : list post)
    : pyresult (channel_data * log_event) :=
  let channel_posts := sort_desc interaction_score channel_posts in
  match channel_posts with
  | _ :: _ =>
      match channel_top_count (len channel_posts) with
      | Raise e => Raise e
      | Ok channel_top_count =>
          let channel_top_posts := slice_to channel_top_count channel_posts in
          Ok ({| total_posts := len channel_posts;
                 selected_posts := channel_top_count;
                 posts := channel_top_posts;
                 error := None |},
              InfoSelected channel_top_count (len channel_posts) channel)
      end
  | [] =>
      Ok ({| total_posts := 0; selected_posts := 0; posts := []; error := None |},
          InfoNoRecent channel)
  end.

(** The [try] block of one channel, up to the handler. *)
Definition try_channel (client : client_t) (limit_per_channel cutoff_time : Z)
    (channel : pystr) : pyresult (channel_data * log_event) :=
  match client channel limit_per_channel with
  | FetchRaises e => Raise e
  | FetchOk messages =>
      select_top channel (collect_recent channel cutoff_time messages)
  end.

(** The state the channel loop updates. *)
Record loop_state : Type := LoopState {
  all_posts_by_channel : list (pystr * channel_data);
  log : list log_event
}.

(** One iteration of [for channel in channels], handler included. *)
Definition process_channel (client : client_t)
    (limit_per_channel cutoff_time : Z)
    (st : loop_state) (channel : pystr) : loop_state :=
  match try_channel client limit_per_channel cutoff_time channel with
  | Ok (data, line) =>
      {| all_posts_by_channel := dict_set channel data (all_posts_by_channel st);
         log := log st ++ [InfoProcessing channel; line] |}
  | Raise e =>
      {| all_posts_by_channel :=
           dict_set channel
             {| total_posts := 0; selected_posts := 0; posts := [];
                error := Some e |}
             (all_posts_by_channel st);
         log := log st ++ [InfoProcessing channel; ErrorFetchFailed channel e] |}
  end.

Definition process_channels (client : client_t)
    (limit_per_channel cutoff_time : Z)
    (channels : list pystr) (st : loop_state) : loop_state :=
  fold_left (process_channel client limit_per_channel cutoff_time) channels st.

(** The loop that combines the entries (lines 266-274). *)
Definition combine (d : list (pystr * channel_data)) : list post * Z * Z :=
  fold_left
    (fun '(all_selected_posts, total_posts_all_channels, total_selected_posts)
         '(_, data) =>
       (all_selected_posts ++ posts data,
        total_posts_all_channels + total_posts data,
        total_selected_posts + selected_posts data))
    d ([], 0, 0).

(** The summary line of one entry (lines 282-288). *)
Definition summary_line (entry : pystr * channel_data) : log_event :=
  let '(channel, data) := entry in
  if 0 <? selected_posts data
  then InfoSummarySelected channel (selected_posts data) (total_posts data)
  else match error data with
       | Some e => WarningSummaryError channel e
       | None => InfoSummaryEmpty channel
       end.

(** [analysis_data], the content of the snapshot. *)
Record analysis_data : Type := AnalysisData {
  timestamp : Z;
  selection_method : pystr;
  total_channels : Z;
  total_posts_found : Z;
  total_posts_selected : Z;
  channels_analysis : list (pystr * channel_data);
  final_selected_posts : list post
}.

(** The file system, as far as the [try] block around the snapshot observes
    it: writing the data succeeds ([None]) or some step of it raises. *)
Definition disk_t : Type := analysis_data -> option pystr.

(** What a call leaves behind: the returned list, the log, and the
    snapshot when it was written. *)
Record run : Type := Run {
  returned : list post;
  run_log : list log_event;
  written : option analysis_data
}.

(** Lines 183-304: the channel loop, the merge, the summary lines and the
    data of the snapshot; the second component is the log so far. *)
Definition analyse (current_time : Z) (client : client_t)
    (channels : list pystr) (limit_per_channel : Z)
    : analysis_data * list log_event :=
  let cutoff_time := current_time - hours_24 in
  let st :=
    process_channels client limit_per_channel cutoff_time channels
      {| all_posts_by_channel := [];
         log := [InfoStart (len channels); InfoCutoff cutoff_time] |} in
  let '(all_selected_posts, total_posts_all_channels, total_selected_posts) :=
    combine (all_posts_by_channel st) in
  let all_selected_posts := sort_desc interaction_score all_selected_posts in
  let log :=
    log st
    ++ [InfoFinal total_selected_posts total_posts_all_channels (len channels)]
    ++ map summary_line (all_posts_by_channel st) in
  ({| timestamp := current_time;
      selection_method := str "top_20_percent_per_channel";
      total_channels := len channels;
      total_posts_found := total_posts_all_channels;
      total_posts_selected := total_selected_posts;
      channels_analysis := all_posts_by_channel st;
      final_selected_posts := all_selected_posts |},
   log).

(** [fetch_top_posts_with_client]: the analysis, then the [try] block that
    writes the snapshot, then [return all_selected_posts]. *)
Definition fetch_top_posts_with_client (current_time : Z) (disk : disk_t)
    (client : client_t) (channels : list pystr) (limit_per_channel : Z)
    : run :=
  let '(data, log) := analyse current_time client channels limit_per_channel in
  let all_selected_posts := final_selected_posts data in
  match disk data with
  | None =>
      {| returned := all_selected_posts;
         run_log := log ++ [InfoSaved];
         written := Some data |}
  | Some e =>
      {| returned := all_selected_posts;
         run_log := log ++ [ErrorSaveFailed e];
         written := None |}
  end.

(** The entry the loop body stores for a channel. *)
Definition channel_entry (client : client_t)
    (limit_per_channel cutoff_time : Z) (channel : pystr) : channel_data :=
  match try_channel client limit_per_channel cutoff_time channel with
  | Ok (data, _) => data
  | Raise e =>
      {| total_posts := 0; selected_posts := 0; posts := []; error := Some e |}
  end.

(** The keys of [all_posts_by_channel] after the loop: the channels in the
    order of their first occurrence. *)
Definition add_key (keys : list pystr) (channel : pystr) : list pystr :=
  if decide (channel ∈ keys) then keys else keys ++ [channel].

Definition channel_keys (channels : list pystr) : list pystr :=
  fold_left add_key channels [].

(** The sum of the [selected_posts] counters of the entries. *)
Definition sum_selected (d : list (pystr * channel_data)) : Z :=
  foldr (fun entry acc => selected_posts entry.2 + acc) 0 d.

(** The count the specification gives for [n] posts: the least integer not
    below [n * 0.2], that is, not below [n / 5], and at least 1; 0 when there
    are no posts. *)
Definition ceil_fifth (n : Z) : Z := - ((- n) / 5).

Definition spec_selected_count (n : Z) : Z :=
  if n =? 0 then 0 else Z.max 1 (ceil_fifth n).

End Main.

(** ** [scrapers/telegram_scraper.py]: [fetch_top_posts_last_24h] *)

Module Scraper.

(** Telethon, as far as one call observes it. [start] is the exception that
    [TelegramClient(...)] or [client.start()] raises (lines 34-35), [answers]
    is what the started client answers for each channel, and [disconnect] is
    the exception that [client.disconnect()] raises (line 92); [None] stands
    for a call that returns. The three calls stand outside any [try]. *)
Record session : Type := Session {
  start : option pystr;
  answers : client_t;
  disconnect : option pystr
}.

(** One iteration of [for channel in channels]: the recent posts are
    appended to [all_posts]; a channel whose fetch raises adds nothing. *)
Definition process_channel (client : client_t)
    (limit_per_channel cutoff_time : Z)
    (all_posts : list post) (channel : pystr) : list post :=
  match client channel limit_per_channel with
  | FetchRaises _ => all_posts
  | FetchOk messages => all_posts ++ collect_recent channel cutoff_time messages
  end.

(** The loop over the channels (lines 37-89), from an empty [all_posts]. *)
Definition collect (client : client_t) (limit_per_channel cutoff_time : Z)
    (channels : list pystr) : list post :=
  fold_left (process_channel client limit_per_channel cutoff_time) channels [].

(** [max(1, int(total_posts * top_percentage))] *)
Definition top_count (total_posts : Z) : pyresult Z :=
  match PyFloat.int_mul_float total_posts PyFloat.top_percentage with
  | Raise e => Raise e
  | Ok x =>
      match PyFloat.int_of_float x with
      | Raise e => Raise e
      | Ok c => Ok (Z.max 1 c)
      end
  end.

(** Lines 95-103: the sort, the count and the slice. The result is the pair
    of [top_count], the count of the log line and of the snapshot, and
    [top_posts]. *)
Definition select_top (all_posts : list post) : pyresult (Z * list post) :=
  let all_posts := sort_desc interaction_score all_posts in
  let total_posts := len all_posts in
  match top_count total_posts with
  | Raise e => Raise e
  | Ok top_count => Ok (top_count, slice_to top_count all_posts)
  end.

(** The outcome of [fetch_top_posts_last_24h]: the list it returns or the
    exception that leaves it. The client is created and started before the
    loop and disconnected after it, and the count is computed after that,
    all outside any [try]; the snapshot is written inside a [try] whose
    handler only logs, so it does not change the outcome. *)
Definition fetch_top_posts_last_24h (current_time : Z) (telethon : session)
    (channels : list pystr) (limit_per_channel : Z) : pyresult (list post) :=
  match start telethon with
  | Some e => Raise e
  | None =>
      let client := answers telethon in
      let cutoff_time := current_time - hours_24 in
      let all_posts := collect client limit_per_channel cutoff_time channels in
      match disconnect telethon with
      | Some e => Raise e
      | None =>
          match select_top all_posts with
          | Raise e => Raise e
          | Ok (top_count, top_posts) => Ok top_posts
          end
      end
  end.

End Scraper.

(** ** Readings of a run *)

(** The posts of a channel inside the window, as both modules build them
    before selecting; none when the fetch raises. *)
Definition recent_posts (client : client_t) (limit_per_channel cutoff_time : Z)
    (channel : pystr) : list post :=
  match client channel limit_per_channel with
  | FetchOk messages => collect_recent channel cutoff_time messages
  | FetchRaises _ => []
  end.

(** The channel of a "Processing channel" log line. *)
Definition processing_line (line : Main.log_event) : option pystr :=
  match line with
  | Main.InfoProcessing channel => Some channel
  | _ => None
  end.

(** The score written out in the counters. *)
Definition engagement (p : post) : Z := views p + 2 * forwards p.

(** ** [main.py]: [send_post_with_media], [send_text_post], [main] *)

Module Publisher.
Import Utils.

(** What reaches the destination group: [send_file] with the media of the
    message fetched again and the caption, or [send_message] with the text.
    Both calls pass [entity=FORWARD_GROUP_ID] and [parse_mode="html"]. *)
Inductive sent : Type :=
  | SentFile (file : option Z) (caption : pystr)
  | SentMessage (message : pystr).

(** The client as the publishing side observes it; each answer may depend on
    what has been sent so far. *)
Record destination : Type := Destination {
  get_messages : list sent -> pyval -> pyval -> pyresult (option message);
  send_file : list sent -> option Z -> pystr -> option pystr;
  send_message : list sent -> pystr -> option pystr
}.

(** The calls to [logger] of the publishing side, and the lines of the fetch
    (the same logger). *)
Inductive event : Type :=
  | ErrorNotRetrieved (id channel : pyval)
  | InfoSentMedia (channel id : pyval)
  | ErrorSendMedia (channel id : pyval) (e : pystr)
  | InfoSentText (channel id : pyval)
  | ErrorSendText (channel id : pyval) (e : pystr)
  | WarningInvalid (channel : pyval)
  | ErrorUnexpected (channel : pyval) (e : pystr)
  | InfoStarting
  | InfoInitializing
  | InfoStarted
  | InfoFetching (channels : list pystr)
  | FetchLine (line : Main.log_event)
  | WarningNoPosts
  | InfoFound (posts : Z)
  | InfoCompleted (successful failed : Z)
  | ErrorCritical (e : pystr)
  | InfoDisconnected
  | ErrorDisconnect (e : pystr).

(** What a run has done so far. *)
Record state : Type := State {
  outbox : list sent;
  lines : list event;
  successful_sends : Z;
  failed_sends : Z
}.

Definition say (st : state) (line : event) : state :=
  {| outbox := outbox st; lines := lines st ++ [line];
     successful_sends := successful_sends st; failed_sends := failed_sends st |}.

Definition deliver (st : state) (s : sent) : state :=
  {| outbox := outbox st ++ [s]; lines := lines st;
     successful_sends := successful_sends st; failed_sends := failed_sends st |}.

Definition count_success (st : state) : state :=
  {| outbox := outbox st; lines := lines st;
     successful_sends := successful_sends st + 1; failed_sends := failed_sends st |}.

Definition count_failure (st : state) : state :=
  {| outbox := outbox st; lines := lines st;
     successful_sends := successful_sends st; failed_sends := failed_sends st + 1 |}.

(** [str(KeyError(k))] *)
Definition key_error (k : string) : pystr := [39%N] ++ str k ++ [39%N].

(** [post[k]] *)
Definition subscript (post : gmap string pyval) (k : string) : pyresult pyval :=
  match post !! k with
  | Some v => Ok v
  | None => Raise (key_error k)
  end.

(** Truth value of a post field. *)
Definition truthy (v : pyval) : bool :=
  match v with
  | PNone => false
  | PBool b => b
  | PInt z => negb (z =? 0)
  | PStr [] => false
  | PStr (_ :: _) => true
  end.

(** The [except Exception as e] handler of the two send functions: its log
    line reads [post['channel']] and [post['id']], then [return False]. *)
Definition send_failed (line : pyval -> pyval -> pystr -> event)
    (post : gmap string pyval) (st : state) (e : pystr)
    : state * pyresult bool :=
  match subscript post "channel" with
  | Raise k => (st, Raise k)
  | Ok c =>
      match subscript post "id" with
      | Raise k => (st, Raise k)
      | Ok i => (say st (line c i e), Ok false)
      end
  end.

(** The last two statements of the [try] block: the success line, which
    reads the same two keys, and [return True]. *)
Definition send_done (line : pyval -> pyval -> event)
    (failed : pyval -> pyval -> pystr -> event)
    (post : gmap string pyval) (st : state) : state * pyresult bool :=
  match subscript post "channel" with
  | Raise k => send_failed failed post st k
  | Ok c =>
      match subscript post "id" with
      | Raise k => send_failed failed post st k
      | Ok i => (say st (line c i), Ok true)
      end
  end.

(** [send_post_with_media(client, post)] *)
Definition send_post_with_media (client : destination) (st : state)
    (post : gmap string pyval) : state * pyresult bool :=
  match subscript post "channel" with
  | Raise k => send_failed ErrorSendMedia post st k
  | Ok c =>
      match subscript post "id" with
      | Raise k => send_failed ErrorSendMedia post st k
      | Ok i =>
          match get_messages client (outbox st) c i with
          | Raise e => send_failed ErrorSendMedia post st e
          | Ok None => (say st (ErrorNotRetrieved i c), Ok false)
          | Ok (Some original_msg) =>
              match format_post_caption post with
              | Raise e => send_failed ErrorSendMedia post st e
              | Ok caption =>
                  match send_file client (outbox st) (msg_media original_msg) caption with
                  | Some e => send_failed ErrorSendMedia post st e
                  | None =>
                      send_done InfoSentMedia ErrorSendMedia post
                        (deliver st (SentFile (msg_media original_msg) caption))
                  end
              end
          end
      end
  end.

(** [send_text_post(client, post)] *)
Definition send_text_post (client : destination) (st : state)
    (post : gmap string pyval) : state * pyresult bool :=
  match format_post_caption post with
  | Raise e => send_failed ErrorSendText post st e
  | Ok message =>
      match send_message client (outbox st) message with
      | Some e => send_failed ErrorSendText post st e
      | None =>
          send_done InfoSentText ErrorSendText post
            (deliver st (SentMessage message))
      end
  end.

(** The [except Exception as e] handler inside the loop of [main]: its log
    line reads [post['channel']]; an exception there leaves the loop. *)
Definition unexpected (post : gmap string pyval) (st : state) (e : pystr)
    : state * option pystr :=
  match subscript post "channel" with
  | Raise k => (st, Some k)
  | Ok c => (count_failure (say st (ErrorUnexpected c e)), None)
  end.

(** The body of [for post in posts]; the second component is the exception
    that leaves the loop, if any. The pause [asyncio.sleep(1)] after a send
    changes nothing that is recorded here. *)
Definition publish_post (client : destination) (st : state)
    (post : gmap string pyval) : state * option pystr :=
  if negb (validate_post_data post) then
    (count_failure
       (say st (WarningInvalid
                  (default (PStr (str "unknown")) (post !! "channel"%string)))),
     None)
  else
    match subscript post "has_media" with
    | Raise k => unexpected post st k
    | Ok media =>
        let '(st, success) :=
          if truthy media then send_post_with_media client st post
          else send_text_post client st post in
        match success with
        | Raise e => unexpected post st e
        | Ok true => (count_success st, None)
        | Ok false => (count_failure st, None)
        end
    end.

Fixpoint publish (client : destination) (st : state)
    (posts : list (gmap string pyval)) : state * option pystr :=
  match posts with
  | [] => (st, None)
  | post :: rest =>
      match publish_post client st post with
      | (st, None) => publish client st rest
      | (st, Some e) => (st, Some e)
      end
  end.

(** What creating and starting the client does. *)
Inductive connect_outcome : Type :=
  | ConstructRaises (e : pystr)
  | StartRaises (e : pystr)
  | Started.

(** Everything [main] depends on: the configuration constants [CHANNELS] and
    [LIMIT_PER_CHANNEL], the clock, the file system, and the client in its
    roles. *)
Record world : Type := World {
  CHANNELS : list pystr;
  LIMIT_PER_CHANNEL : Z;
  current_time : Z;
  isoformat : Z -> pystr;
  disk : Main.disk_t;
  connect : connect_outcome;
  source : client_t;
  target : destination;
  is_connected : bool;
  disconnect : option pystr
}.

(** What a call of [main] leaves behind: the exception it raises, if any,
    the final state, and whether [disconnect] was called. *)
Record outcome : Type := Outcome {
  raised : option pystr;
  final : state;
  disconnect_called : bool
}.

(** The [finally] block; [client] tells whether the variable was assigned. *)
Definition finally (w : world) (client : bool) (raised : option pystr)
    (st : state) : outcome :=
  if client && is_connected w then
    match disconnect w with
    | None =>
        {| raised := raised; final := say st InfoDisconnected;
           disconnect_called := true |}
    | Some e =>
        {| raised := raised; final := say st (ErrorDisconnect e);
           disconnect_called := true |}
    end
  else {| raised := raised; final := st; disconnect_called := false |}.

(** [main()] *)
Definition main (w : world) : outcome :=
  let st := {| outbox := []; lines := [InfoStarting; InfoInitializing];
               successful_sends := 0; failed_sends := 0 |} in
  match connect w with
  | ConstructRaises e => finally w false (Some e) (say st (ErrorCritical e))
  | StartRaises e => finally w true (Some e) (say st (ErrorCritical e))
  | Started =>
      let st := say (say st InfoStarted) (InfoFetching (CHANNELS w)) in
      let fetched :=
        Main.fetch_top_posts_with_client (current_time w) (disk w) (source w)
          (CHANNELS w) (LIMIT_PER_CHANNEL w) in
      let st :=
        {| outbox := outbox st;
           lines := lines st ++ map FetchLine (Main.run_log fetched);
           successful_sends := successful_sends st;
           failed_sends := failed_sends st |} in
      match Main.returned fetched with
      | [] => finally w true None (say st WarningNoPosts)
      | _ :: _ =>
          let posts := Main.returned fetched in
          let st := say st (InfoFound (len posts)) in
          match publish (target w) st (map (post_to_dict (isoformat w)) posts) with
          | (st, Some e) => finally w true (Some e) (say st (ErrorCritical e))
          | (st, None) =>
              finally w true None
                (say st (InfoCompleted (successful_sends st) (failed_sends st)))
          end
      end
  end.

(** The posts [main] gets from [fetch_top_posts_with_client]. *)
Definition selection (w : world) : list post :=
  Main.returned
    (Main.fetch_top_posts_with_client (current_time w) (disk w) (source w)
       (CHANNELS w) (LIMIT_PER_CHANNEL w)).

(** The send that publishing [post] amounts to: the post is valid, has a
    caption, and the call is [send_file] for a post with media and
    [send_message] for one without. *)
Definition sent_for (s : sent) (post : gmap string pyval) : Prop :=
  validate_post_data post = true /\
  exists media caption,
    post !! "has_media"%string = Some media /\
    format_post_caption post = Ok caption /\
    if truthy media then exists file, s = SentFile file caption
    else s = SentMessage caption.

(** The caption [format_post_caption] gives a post of the pipeline. *)
Definition caption_of_post (p : post) : pystr :=
  (if forallb PyStr.isspace (PyStr.escape (text p))
   then placeholder else PyStr.escape (text p)) ++ footer.

(** A destination on which every call succeeds: the message is found again
    and both kinds of send go through. *)
Definition reliable (client : destination) : Prop :=
  (forall history c i, exists original_msg,
     get_messages client history c i = Ok (Some original_msg)) /\
  (forall history file caption, send_file client history file caption = None) /\
  (forall history message, send_message client history message = None).

(** The send that publishes a post of the pipeline. *)
Definition publishes (s : sent) (p : post) : Prop :=
  if has_media p then exists file, s = SentFile file (caption_of_post p)
  else s = SentMessage (caption_of_post p).

(** What one of the two send functions does to a post that has its
    [channel] and [id]: it returns a truth value, and it has sent exactly
    one message when the value is [True] and none when it is [False]. *)
Definition send_outcome (kind : pystr -> sent -> Prop) (post : gmap string pyval)
    (st : state) (r : state * pyresult bool) : Prop :=
  successful_sends r.1 = successful_sends st /\
  failed_sends r.1 = failed_sends st /\
  ((r.2 = Ok false /\ outbox r.1 = outbox st) \/
   (r.2 = Ok true /\
    exists caption s, format_post_caption post = Ok caption /\
      kind caption s /\ outbox r.1 = outbox st ++ [s])).

(** The caption carried by a send. *)
Definition sent_caption (s : sent) : pystr :=
  match s with
  | SentFile _ caption => caption
  | SentMessage message => message
  end.

End Publisher.

(** ** [config.py]: the list of channels *)

Module Config.

(** [s.split(",")] *)
Fixpoint split_comma (s : pystr) : list pystr :=
  match s with
  | [] => [[]]
  | c :: s' =>
      if (c =? 44)%N then [] :: split_comma s'
      else match split_comma s' with
           | piece :: pieces => (c :: piece) :: pieces
           | [] => [[c]]
           end
  end.

(** [[channel.strip() for channel in CHANNELS_STR.split(",") if channel.strip()]] *)
Definition parse_channels (CHANNELS_STR : pystr) : list pystr :=
  omap (fun channel =>
          match PyStr.strip channel with
          | [] => None
          | c :: s => Some (c :: s)
          end)
       (split_comma CHANNELS_STR).

(** [os.getenv("CHANNELS", "gizmiztel")], then the parse. *)
Definition CHANNELS (env : gmap string pystr) : list pystr :=
  parse_channels (default (str "gizmiztel") (env !! "CHANNELS"%string)).

(** [",".join(names)] *)
Fixpoint join_comma (names : list pystr) : pystr :=
  match names with
  | [] => []
  | [name] => name
  | name :: rest => name ++ [44%N] ++ join_comma rest
  end.

(** A name the parse leaves as it is: not empty, no whitespace at either
    end, no comma. *)
Definition plain_name (name : pystr) : Prop :=
  name <> [] /\ PyStr.strip name = name /\ 44%N ∉ name.

End Config.

(** ** [get_group_id.py]: the groups found in the updates *)

Module GroupId.

Record chat : Type := Chat {
  chat_id : Z;
  chat_title : option pystr;
  chat_type : pystr
}.

(** [update.message] and [update.message.chat], each possibly [None]. *)
Record update : Type := Update {
  update_message : option (option chat)
}.

(** An entry of [groups_found]. *)
Record group : Type := Group {
  title : option pystr;
  type : pystr;
  id : Z
}.

(** [groups_found[k] = v] on a dict iterated in insertion order. *)
Fixpoint dict_set (k : Z) (v : group) (d : list (Z * group)) : list (Z * group) :=
  match d with
  | [] => [(k, v)]
  | (k', v') :: d' =>
      if decide (k' = k) then (k, v) :: d' else (k', v') :: dict_set k v d'
  end.

(** [chat.type in ['group', 'supergroup']] *)
Definition is_group (c : chat) : bool :=
  bool_decide (chat_type c = str "group")
  || bool_decide (chat_type c = str "supergroup").

(** The body of [for update in updates]. *)
Definition note_update (groups_found : list (Z * group)) (u : update)
    : list (Z * group) :=
  match update_message u with
  | Some (Some c) =>
      if is_group c
      then dict_set (chat_id c)
             {| title := chat_title c; type := chat_type c; id := chat_id c |}
             groups_found
      else groups_found
  | _ => groups_found
  end.

(** [groups_found] after the loop over the updates. *)
Definition groups_found (updates : list update) : list (Z * group) :=
  fold_left note_update updates [].

(** The group chat of an update, if it has one. *)
Definition group_chat (u : update) : option chat :=
  match update_message u with
  | Some (Some c) => if is_group c then Some c else None
  | _ => None
  end.

End GroupId.

(** ** Sample inputs

    A run at [now] over three channels: [news] has six posts inside the
    window and one older; [down] cannot be fetched; [quiet] has no posts.
    A fourth channel, [digest], has five posts inside the window. *)

Module Sample.

Definition now : Z := 1700000000000000.

Definition msg (i age_hours v f : Z) : message :=
  {| msg_id := i;
     msg_date := now - age_hours * 3600000000;
     msg_message := Some (str "post");
     msg_views := Some v;
     msg_forwards := Some f;
     msg_media := None |}.

Definition news : list message :=
  [msg 106 1 50 2; msg 105 2 900 10; msg 104 3 10 0; msg 103 5 300 40;
   msg 102 8 70 1; msg 101 20 5 5; msg 100 30 9999 99].

Definition client : client_t := fun channel _ =>
  if decide (channel = str "news") then FetchOk news
  else if decide (channel = str "digest") then FetchOk (drop 1 news)
  else if decide (channel = str "down") then FetchRaises (str "timeout")
  else FetchOk [].

Definition channels : list pystr := [str "news"; str "down"; str "quiet"].

(** A disk on which every write fails. *)
Definition full_disk : Main.disk_t := fun _ => Some (str "No space left on device").

Definition good_disk : Main.disk_t := fun _ => None.

End Sample.

(** A world for [main]: the sample channels, a client that starts, and a
    destination on which every call succeeds. *)

Module SampleWorld.

Definition target : Publisher.destination :=
  {| Publisher.get_messages := fun _ _ _ => Ok (Some (Sample.msg 0 0 0 0));
     Publisher.send_file := fun _ _ _ => None;
     Publisher.send_message := fun _ _ => None |}.

Definition world : Publisher.world :=
  {| Publisher.CHANNELS := Sample.channels;
     Publisher.LIMIT_PER_CHANNEL := 50;
     Publisher.current_time := Sample.now;
     Publisher.isoformat := fun _ => [];
     Publisher.disk := Sample.good_disk;
     Publisher.connect := Publisher.Started;
     Publisher.source := Sample.client;
     Publisher.target := target;
     Publisher.is_connected := true;
     Publisher.disconnect := None |}.

(** The same world with a client that fails to start. *)
Definition offline : Publisher.world :=
  {| Publisher.CHANNELS := Sample.channels;
     Publisher.LIMIT_PER_CHANNEL := 50;
     Publisher.current_time := Sample.now;
     Publisher.isoformat := fun _ => [];
     Publisher.disk := Sample.good_disk;
     Publisher.connect := Publisher.StartRaises (str "unauthorized");
     Publisher.source := Sample.client;
     Publisher.target := target;
     Publisher.is_connected := false;
     Publisher.disconnect := None |}.

End SampleWorld.

(** Sessions for the scraper: the sample client behind a session that starts
    and disconnects, behind one that cannot start, and behind one whose
    [disconnect] raises; and a second client with two channels of five posts
    each, every post of [loud] scoring above every post of [calm]. *)

Module SampleSession.

Definition session : Scraper.session :=
  {| Scraper.start := None;
     Scraper.answers := Sample.client;
     Scraper.disconnect := None |}.

Definition unauthorized : Scraper.session :=
  {| Scraper.start := Some (str "unauthorized");
     Scraper.answers := Sample.client;
     Scraper.disconnect := None |}.

Definition dropped : Scraper.session :=
  {| Scraper.start := None;
     Scraper.answers := Sample.client;
     Scraper.disconnect := Some (str "connection reset") |}.

Definition loud : list message :=
  [Sample.msg 205 1 5000 0; Sample.msg 204 2 4000 0; Sample.msg 203 3 3000 0;
   Sample.msg 202 4 2000 0; Sample.msg 201 5 1000 0].

Definition calm : list message :=
  [Sample.msg 305 1 50 0; Sample.msg 304 2 40 0; Sample.msg 303 3 30 0;
   Sample.msg 302 4 20 0; Sample.msg 301 5 10 0].

Definition two_channels : client_t := fun channel _ =>
  if decide (channel = str "loud") then FetchOk loud
  else if decide (channel = str "calm") then FetchOk calm
  else FetchOk [].

Definition pooled : Scraper.session :=
  {| Scraper.start := None;
     Scraper.answers := two_channels;
     Scraper.disconnect := None |}.

End SampleSession.

(** * Facts *)

(** ** binary64 rounding

    The lemmas below follow [SpecFloat]'s [binary_round_aux] through the two
    computations the pipeline performs: the conversion of a list length to a
    float and its product with [0.2]. *)

Module PyFloatFacts.
Import PyFloat.

Lemma digits2_pos_size p : digits2_pos p = Pos.size p.
Proof. induction p; simpl; congruence. Qed.

Lemma digits2_pos_bounds p :
  2 ^ (Z.pos (digits2_pos p) - 1) <= Z.pos p < 2 ^ Z.pos (digits2_pos p).
Proof.
  rewrite digits2_pos_size. split.
  - pose proof (Pos.size_le p) as H.
    assert (Z.pos (2 ^ Pos.size p) <= Z.pos p~0) by exact H.
    rewrite Pos2Z.inj_pow in H0.
    replace (Z.pos (Pos.size p)) with (Z.succ (Z.pos (Pos.size p) - 1)) in H0 by lia.
    rewrite Z.pow_succ_r in H0 by lia. lia.
  - pose proof (Pos.size_gt p) as H.
    assert (Z.pos p < Z.pos (2 ^ Pos.size p)) by exact H.
    now rewrite Pos2Z.inj_pow in H0.
Qed.

Lemma digits2_pos_unique p d :
  0 < d -> 2 ^ (d - 1) <= Z.pos p < 2 ^ d -> Z.pos (digits2_pos p) = d.
Proof.
  intros Hd [Hlo Hhi]. destruct (digits2_pos_bounds p) as [Blo Bhi].
  set (s := Z.pos (digits2_pos p)) in *.
  assert (0 < s) by (unfold s; lia).
  destruct (Z.lt_trichotomy s d) as [Hlt | [Heq | Hgt]]; auto; exfalso.
  - assert (2 ^ s <= 2 ^ (d - 1)) by (apply Z.pow_le_mono_r; lia). lia.
  - assert (2 ^ d <= 2 ^ (s - 1)) by (apply Z.pow_le_mono_r; lia). lia.
Qed.

Lemma iter_pos_nat {A} (f : A -> A) p x :
  SpecFloat.iter_pos f p x = Nat.iter (Pos.to_nat p) f x.
Proof.
  revert x. induction p as [p IHp | p IHp |]; intros x; cbn [SpecFloat.iter_pos].
  - rewrite !IHp, Pos2Nat.inj_xI, <- Nat.iter_add, <- Nat.iter_succ_r.
    f_equal. lia.
  - rewrite !IHp, Pos2Nat.inj_xO, <- Nat.iter_add. f_equal. lia.
  - reflexivity.
Qed.

Lemma pos_iter_xO p k : Z.pos (Pos.iter xO p k) = Z.pos p * 2 ^ Z.pos k.
Proof.
  induction k using Pos.peano_ind.
  - simpl. lia.
  - rewrite Pos.iter_succ. rewrite Pos2Z.inj_succ, Z.pow_succ_r by lia.
    change (Z.pos (Pos.iter xO p k)~0) with (2 * Z.pos (Pos.iter xO p k)). lia.
Qed.

Lemma shr_1_inv m k mrs : shr_inv m k mrs -> shr_inv m (S k) (shr_1 mrs).
Proof.
  destruct mrs as [q r s]. unfold shr_inv. cbn [shr_m shr_r shr_s].
  intros [Hq [sp [Hsp [Hs Hm]]]].
  rewrite Nat2Z.inj_succ.
  rewrite !Z.pow_add_r, !Z.pow_succ_r in * by lia.
  change (2 ^ 1) with 2 in *.
  set (K := 2 ^ Z.of_nat k) in *.
  assert (0 < K) by (apply Z.pow_pos_nonneg; lia).
  assert (Hor : orb r s = negb ((if r then K else 0) + sp =? 0)).
  { destruct r; simpl; [symmetry; apply negb_true_iff, Z.eqb_neq; lia | exact Hs]. }
  destruct q as [|[q|q|]|q]; cbn [shr_1 shr_m shr_r shr_s]; try lia;
    (split; [lia|]);
    exists ((if r then K else 0) + sp);
    (split; [destruct r; lia|]); (split; [exact Hor|]); lia.
Qed.

Lemma shr_iter_inv m k :
  0 <= m -> shr_inv m k (Nat.iter k shr_1 (Build_shr_record m false false)).
Proof.
  intros Hm. induction k.
  - split; [exact Hm|]. exists 0. cbn [Nat.iter nat_rect shr_m shr_r shr_s].
    change (Z.of_nat 0) with 0. change (2 ^ (0 + 1)) with 2. change (2 ^ 0) with 1.
    repeat split; try lia.
  - cbn [Nat.iter nat_rect]. now apply shr_1_inv.
Qed.

Lemma shr_pos_spec (P : positive) (k : positive) :
  exists q r s sp,
    SpecFloat.iter_pos shr_1 k (Build_shr_record (Z.pos P) false false) = Build_shr_record q r s /\
    q = Z.pos P / 2 ^ Z.pos k /\
    0 <= sp < 2 ^ Z.pos k /\ s = negb (sp =? 0) /\
    2 * (Z.pos P mod 2 ^ Z.pos k) = (if r then 2 ^ Z.pos k else 0) + sp.
Proof.
  rewrite iter_pos_nat.
  destruct (shr_iter_inv (Z.pos P) (Pos.to_nat k)) as [Hq [sp [Hsp [Hs Hm]]]]; [lia|].
  destruct (Nat.iter _ _ _) as [q r s]. cbn [shr_m shr_r shr_s] in *.
  rewrite positive_nat_Z in *.
  exists q, r, s, sp. split; [reflexivity|].
  rewrite Z.pow_add_r in Hm by lia. change (2 ^ 1) with 2 in Hm.
  set (K := 2 ^ Z.pos k) in *.
  assert (0 < K) by (apply Z.pow_pos_nonneg; lia).
  clearbody K.
  assert (Hrem : 2 * (Z.pos P - K * q) = (if r then K else 0) + sp)
    by (destruct r; lia).
  assert (Hr : 0 <= Z.pos P - K * q < K) by (destruct r; lia).
  assert (Hqq : q = Z.pos P / K).
  { apply (Z.div_unique _ _ _ (Z.pos P - K * q)); lia. }
  split; [exact Hqq|]. split; [exact Hsp|]. split; [exact Hs|].
  assert (Hmod : Z.pos P mod K = Z.pos P - K * q).
  { symmetry. apply (Z.mod_unique _ _ q); lia. }
  rewrite Hmod. exact Hrem.
Qed.


Lemma fexp_normal e : -1074 <= e - 53 -> fexp prec emax e = e - 53.
Proof. unfold fexp, emin, prec, emax. lia. Qed.

Lemma round_aux_spec (P : positive) (E : Z) (k : positive) :
  Z.pos (digits2_pos P) = 53 + Z.pos k ->
  -1074 <= E + Z.pos k -> E + Z.pos k + 1 <= 971 ->
  exists m e m2,
    binary_round_aux prec emax false (Z.pos P) E loc_Exact = S754_finite false m e /\
    ((e = E + Z.pos k /\ Z.pos m = m2) \/ (e = E + Z.pos k + 1 /\ 2 * Z.pos m = m2)) /\
    Z.pos P / 2 ^ Z.pos k <= m2 <= Z.pos P / 2 ^ Z.pos k + 1 /\
    (2 * (Z.pos P mod 2 ^ Z.pos k) < 2 ^ Z.pos k -> m2 = Z.pos P / 2 ^ Z.pos k) /\
    (2 * (Z.pos P mod 2 ^ Z.pos k) > 2 ^ Z.pos k -> m2 = Z.pos P / 2 ^ Z.pos k + 1).
Proof.
  intros Hd Hlo Hhi.
  unfold binary_round_aux.
  unfold shr_fexp at 1. cbn [Zdigits2 shr_record_of_loc].
  rewrite Hd, fexp_normal by lia.
  replace (53 + Z.pos k + E - 53 - E) with (Z.pos k) by lia.
  cbn [shr].
  destruct (shr_pos_spec P k) as (q & r & s & sp & Hit & Hq & Hsp & Hs & Hrem).
  rewrite Hit. cbn [shr_m].
  destruct (digits2_pos_bounds P) as [Plo Phi]. rewrite Hd in Plo, Phi.
  replace (53 + Z.pos k - 1) with (52 + Z.pos k) in Plo by lia.
  rewrite Z.pow_add_r in Plo, Phi by lia.
  set (K := 2 ^ Z.pos k) in *.
  assert (HK : 0 < K) by (apply Z.pow_pos_nonneg; lia).
  assert (Hq52 : 2 ^ 52 <= q < 2 ^ 53).
  { subst q. split.
    - apply Z.div_le_lower_bound; lia.
    - apply Z.div_lt_upper_bound; lia. }
  set (m2 := round_nearest_even q (loc_of_shr_record (Build_shr_record q r s))).
  assert (Hm2 : q <= m2 <= q + 1 /\
                (2 * (Z.pos P mod K) < K -> m2 = q) /\
                (2 * (Z.pos P mod K) > K -> m2 = q + 1)).
  { unfold m2. rewrite Hrem.
    destruct r, s; cbn [loc_of_shr_record round_nearest_even];
      try (destruct (Z.even q)); repeat split; try lia;
      try (apply negb_true_iff, Z.eqb_neq in Hs); try (apply negb_false_iff, Z.eqb_eq in Hs); lia. }
  destruct Hm2 as (Hb & Hdn & Hup).
  destruct (Z.eq_dec m2 (2 ^ 53)) as [Hpow | Hnpow].
  - (* the rounded mantissa overflows to 54 bits and is shifted once more *)
    exists (4503599627370496%positive), (E + Z.pos k + 1), m2.
    rewrite Hpow. change (2 ^ 53) with 9007199254740992.
    unfold shr_fexp. cbn [shr_record_of_loc].
    change (Zdigits2 9007199254740992) with 54.
    rewrite fexp_normal by lia.
    replace (54 + (E + Z.pos k) - 53 - (E + Z.pos k)) with 1 by lia.
    cbn [shr SpecFloat.iter_pos shr_1 shr_m].
    replace (E + Z.pos k + 1 <=? emax - prec) with true
      by (symmetry; apply Z.leb_le; unfold emax, prec; lia).
    rewrite <- Hq. fold K. change (2 ^ 53) with 9007199254740992 in *.
    repeat split; lia.
  - assert (Hm2r : 2 ^ 52 <= m2 < 2 ^ 53) by lia.
    destruct m2 as [|pm|pm] eqn:Em2; try lia.
    exists pm, (E + Z.pos k), (Z.pos pm).
    unfold shr_fexp. cbn [Zdigits2 shr_record_of_loc].
    rewrite (digits2_pos_unique pm 53) by (try lia; exact Hm2r).
    rewrite fexp_normal by lia.
    replace (53 + (E + Z.pos k) - 53 - (E + Z.pos k)) with 0 by lia.
    cbn [shr shr_m].
    replace (E + Z.pos k <=? emax - prec) with true
      by (symmetry; apply Z.leb_le; unfold emax, prec; lia).
    rewrite <- Hq. fold K. repeat split; lia.
Qed.

Lemma round_aux_exact (m : positive) (e : Z) :
  Z.pos (digits2_pos m) = 53 -> -1074 <= e <= 971 ->
  binary_round_aux prec emax false (Z.pos m) e loc_Exact = S754_finite false m e.
Proof.
  intros Hd He. unfold binary_round_aux, shr_fexp.
  cbn [Zdigits2 shr_record_of_loc]. rewrite Hd, fexp_normal by lia.
  replace (53 + e - 53 - e) with 0 by lia.
  cbn [shr shr_m loc_of_shr_record round_nearest_even Zdigits2].
  rewrite Hd, fexp_normal by lia.
  replace (53 + e - 53 - e) with 0 by lia. cbn [shr shr_m].
  replace (e <=? emax - prec) with true
    by (symmetry; apply Z.leb_le; unfold emax, prec; lia).
  reflexivity.
Qed.

Lemma float_of_int_spec (n : Z) :
  0 < n < 2 ^ 53 ->
  exists (mx : positive) (u : Z),
    0 <= u <= 52 /\ Z.pos mx = n * 2 ^ u /\ 2 ^ 52 <= Z.pos mx < 2 ^ 53 /\
    float_of_int n = Ok (S754_finite false mx (- u)).
Proof.
  intros [Hn0 Hn]. destruct n as [|p|p]; try lia.
  unfold float_of_int, binary_normalize, binary_round.
  destruct (digits2_pos_bounds p) as [Blo Bhi].
  set (d := Z.pos (digits2_pos p)) in *.
  assert (Hd : 1 <= d <= 53).
  { split; [unfold d; lia|].
    destruct (Z.le_gt_cases d 53) as [|Hgt]; [assumption|exfalso].
    assert (2 ^ 53 <= 2 ^ (d - 1)) by (apply Z.pow_le_mono_r; lia). lia. }
  rewrite Z.add_0_r, fexp_normal by lia.
  unfold shl_align. rewrite Z.sub_0_r.
  destruct (Z.eq_dec d 53) as [E53 | N53].
  - rewrite E53. change (53 - 53) with 0. cbv beta iota.
    rewrite round_aux_exact by (fold d; lia).
    exists p, 0. rewrite E53 in Blo, Bhi. change (53 - 1) with 52 in Blo.
    repeat split; try lia.
  - destruct (d - 53) as [|dd|dd] eqn:Edd; try lia.
    assert (Hmz : Z.pos (Pos.iter xO p dd) = Z.pos p * 2 ^ Z.pos dd) by apply pos_iter_xO.
    assert (Hpw : 2 ^ d * 2 ^ Z.pos dd = 2 ^ 53).
    { rewrite <- Z.pow_add_r by lia. f_equal. lia. }
    assert (Hpw' : 2 ^ (d - 1) * 2 ^ Z.pos dd = 2 ^ 52).
    { rewrite <- Z.pow_add_r by lia. f_equal. lia. }
    assert (0 < 2 ^ Z.pos dd) by (apply Z.pow_pos_nonneg; lia).
    assert (Hrange : 2 ^ 52 <= Z.pos (Pos.iter xO p dd) < 2 ^ 53).
    { rewrite Hmz, <- Hpw, <- Hpw'. split.
      - apply Z.mul_le_mono_nonneg_r; lia.
      - apply Z.mul_lt_mono_pos_r; lia. }
    rewrite round_aux_exact.
    + exists (Pos.iter xO p dd), (Z.pos dd).
      repeat split; try lia.
    + apply digits2_pos_unique; [lia | exact Hrange].
    + lia.
Qed.

Lemma mul_fifth_spec (n q j : Z) :
  0 < n < 2 ^ 53 -> n = 5 * q + j -> 0 <= j < 5 ->
  exists f m t,
    float_of_int n = Ok f /\
    float_mul f top_percentage = S754_finite false m (- t) /\
    0 < t /\
    (j = 0 -> Z.pos m = q * 2 ^ t) /\
    (0 < j -> q * 2 ^ t < Z.pos m <= (q + 1) * 2 ^ t) /\
    (0 < j -> n < 2 ^ 52 -> Z.pos m < (q + 1) * 2 ^ t).
Proof.
  intros Hn Hq Hj.
  destruct (float_of_int_spec n Hn) as (mx & u & Hu & Hmx & Hrange & Hf).
  exists (S754_finite false mx (- u)).
  unfold float_mul, top_percentage. cbn [SFmul xorb].
  set (P := (mx * 7205759403792794)%positive).
  assert (HP : Z.pos P = Z.pos mx * 7205759403792794) by reflexivity.
  change (2 ^ 52) with 4503599627370496 in *.
  change (2 ^ 53) with 9007199254740992 in *.
  assert (HA : 0 < 2 ^ u) by (apply Z.pow_pos_nonneg; lia).
  assert (HA2 : n < 4503599627370496 -> 2 <= 2 ^ u).
  { intros Hsmall. destruct (Z.eq_dec u 0) as [-> | Hu0].
    - change (2 ^ 0) with 1 in Hmx. lia.
    - replace u with (Z.succ (u - 1)) by lia. rewrite Z.pow_succ_r by lia.
      assert (0 < 2 ^ (u - 1)) by (apply Z.pow_pos_nonneg; lia). lia. }
  assert (Hjc : j = 0 \/ j = 1 \/ j = 2 \/ j = 3 \/ j = 4) by lia.
  destruct (Z.lt_ge_cases (Z.pos P) (2 ^ 105)) as [Hlt | Hge].
  - (* 105-bit product: 52 bits are shifted out *)
    destruct (round_aux_spec P (- u + -55) 52) as (m & e & m2 & Hr & He & Hb & Hdn & Hup).
    { apply digits2_pos_unique; [lia|]. change (53 + 52 - 1) with 104.
      change (53 + 52) with 105. split; [|exact Hlt].
      change (2 ^ 104) with 20282409603651670423947251286016. lia. }
    { lia. } { lia. }
    rewrite Hr.
    pose proof (Z.div_mod (Z.pos P) (2 ^ 52) ltac:(lia)) as Hdm.
    pose proof (Z.mod_pos_bound (Z.pos P) (2 ^ 52) ltac:(lia)) as Hmb.
    set (fl := Z.pos P / 2 ^ 52) in *. set (rem := Z.pos P mod 2 ^ 52) in *.
    change (2 ^ 52) with 4503599627370496 in *.
    change (2 ^ 105) with 40564819207303340847894502572032 in *.
    clearbody fl rem P.
    destruct He as [[He Hm] | [He Hm]].
    + exists m, (u + 3). replace (- (u + 3)) with e by lia.
      rewrite Z.pow_add_r by lia. change (2 ^ 3) with 8.
      set (A := 2 ^ u) in *. clearbody A.
      destruct Hjc as [-> | [-> | [-> | [-> | ->]]]];
        (split; [exact Hf|]); repeat split; lia.
    + exists m, (u + 2). replace (- (u + 2)) with e by lia.
      rewrite Z.pow_add_r by lia. change (2 ^ 2) with 4.
      set (A := 2 ^ u) in *. clearbody A.
      destruct Hjc as [-> | [-> | [-> | [-> | ->]]]];
        (split; [exact Hf|]); repeat split; lia.
  - destruct (round_aux_spec P (- u + -55) 53) as (m & e & m2 & Hr & He & Hb & Hdn & Hup).
    { apply digits2_pos_unique; [lia|]. change (53 + 53 - 1) with 105.
      change (53 + 53) with 106. split; [exact Hge|].
      change (2 ^ 106) with 81129638414606681695789005144064. lia. }
    { lia. } { lia. }
    rewrite Hr.
    pose proof (Z.div_mod (Z.pos P) (2 ^ 53) ltac:(lia)) as Hdm.
    pose proof (Z.mod_pos_bound (Z.pos P) (2 ^ 53) ltac:(lia)) as Hmb.
    set (fl := Z.pos P / 2 ^ 53) in *. set (rem := Z.pos P mod 2 ^ 53) in *.
    change (2 ^ 53) with 9007199254740992 in *.
    change (2 ^ 105) with 40564819207303340847894502572032 in *.
    clearbody fl rem P.
    destruct He as [[He Hm] | [He Hm]].
    + exists m, (u + 2). replace (- (u + 2)) with e by lia.
      rewrite Z.pow_add_r by lia. change (2 ^ 2) with 4.
      set (A := 2 ^ u) in *. clearbody A.
      destruct Hjc as [-> | [-> | [-> | [-> | ->]]]];
        (split; [exact Hf|]); repeat split; lia.
    + exists m, (u + 1). replace (- (u + 1)) with e by lia.
      rewrite Z.pow_add_r by lia. change (2 ^ 1) with 2.
      set (A := 2 ^ u) in *. clearbody A.
      destruct Hjc as [-> | [-> | [-> | [-> | ->]]]];
        (split; [exact Hf|]); repeat split; lia.
Qed.

(** [top_percentage] is the double nearest to 1/5: its mantissa has 53 bits
    and is closer to 2^55 / 5 than both neighbours. *)
Lemma top_percentage_nearest :
  top_percentage = S754_finite false 7205759403792794 (-55) /\
  2 ^ 52 <= 7205759403792794 < 2 ^ 53 /\
  Z.abs (5 * 7205759403792794 - 2 ^ 55) < Z.abs (5 * (7205759403792794 + 1) - 2 ^ 55) /\
  Z.abs (5 * 7205759403792794 - 2 ^ 55) < Z.abs (5 * (7205759403792794 - 1) - 2 ^ 55).
Proof. split; [reflexivity|]. vm_compute. repeat split; discriminate. Qed.

Lemma top_count_ceil (n : Z) :
  0 < n < 2 ^ 53 ->
  exists x, int_mul_float n top_percentage = Ok x /\
            math_ceil x = Ok (- ((- n) / 5)).
Proof.
  intros Hn.
  destruct (mul_fifth_spec n (n / 5) (n mod 5) Hn) as
    (f & m & t & Hf & Hmul & Ht & H0 & Hpos & _).
  { apply Z.div_mod. lia. } { apply Z.mod_pos_bound. lia. }
  exists (S754_finite false m (- t)).
  unfold int_mul_float. rewrite Hf, Hmul. split; [reflexivity|].
  unfold math_ceil, signed_mantissa.
  replace (0 <=? - t) with false by (symmetry; apply Z.leb_gt; lia).
  rewrite Z.opp_involutive. do 2 f_equal.
  assert (HT : 0 < 2 ^ t) by (apply Z.pow_pos_nonneg; lia).
  set (T := 2 ^ t) in *. clearbody T.
  pose proof (Z.div_mod n 5 ltac:(lia)) as Hdm.
  pose proof (Z.mod_pos_bound n 5 ltac:(lia)) as Hmb.
  set (q := n / 5) in *. set (j := n mod 5) in *. clearbody q j.
  destruct (Z.eq_dec j 0) as [Hj | Hj].
  - rewrite (H0 Hj).
    transitivity (- q); [symmetry|]; apply Z.div_unique with 0; lia.
  - destruct Hpos as [Hlo Hhi]; [lia|].
    transitivity (- (q + 1)); [symmetry|].
    + apply Z.div_unique with ((q + 1) * T - Z.pos m); lia.
    + apply Z.div_unique with (5 - j); lia.
Qed.

Lemma top_count_trunc (n : Z) :
  0 < n < 2 ^ 52 ->
  exists x, int_mul_float n top_percentage = Ok x /\
            int_of_float x = Ok (n / 5).
Proof.
  intros Hn.
  destruct (mul_fifth_spec n (n / 5) (n mod 5)) as
    (f & m & t & Hf & Hmul & Ht & H0 & Hpos & Hstrict).
  { change (2 ^ 52) with 4503599627370496 in Hn.
    change (2 ^ 53) with 9007199254740992. lia. }
  { apply Z.div_mod. lia. } { apply Z.mod_pos_bound. lia. }
  exists (S754_finite false m (- t)).
  unfold int_mul_float. rewrite Hf, Hmul. split; [reflexivity|].
  unfold int_of_float, signed_mantissa.
  replace (0 <=? - t) with false by (symmetry; apply Z.leb_gt; lia).
  rewrite Z.opp_involutive. f_equal.
  assert (HT : 0 < 2 ^ t) by (apply Z.pow_pos_nonneg; lia).
  set (T := 2 ^ t) in *. clearbody T.
  pose proof (Z.mod_pos_bound n 5 ltac:(lia)) as Hmb.
  set (q := n / 5) in *. set (j := n mod 5) in *. clearbody q j.
  rewrite Z.quot_div_nonneg by lia.
  destruct (Z.eq_dec j 0) as [Hj | Hj].
  - rewrite (H0 Hj). symmetry. apply Z.div_unique with 0; lia.
  - destruct Hpos as [Hlo Hhi]; [lia|].
    assert (Z.pos m < (q + 1) * T) by (apply Hstrict; lia).
    symmetry. apply Z.div_unique with (Z.pos m - q * T); lia.
Qed.

End PyFloatFacts.

(** ** The stable descending sort *)

Section SortFacts.
Context {A : Type} (key : A -> Z).

Lemma insert_desc_perm x l : insert_desc key x l ≡ₚ x :: l.
Proof.
  induction l as [|y l IH]; simpl; [done|].
  destruct (key x <? key y); [|done].
  rewrite IH. apply Permutation_swap.
Qed.

Lemma sort_desc_perm l : sort_desc key l ≡ₚ l.
Proof.
  induction l as [|x l IH]; simpl; [done|].
  by rewrite insert_desc_perm, IH.
Qed.

Lemma sort_desc_length l : length (sort_desc key l) = length l.
Proof. apply Permutation_length, sort_desc_perm. Qed.

Lemma insert_desc_sorted x l :
  StronglySorted (desc key) l -> StronglySorted (desc key) (insert_desc key x l).
Proof.
  induction 1 as [|y l Hs IH Hall]; simpl.
  - repeat constructor.
  - destruct (key x <? key y) eqn:E.
    + apply Z.ltb_lt in E. constructor; [exact IH|].
      rewrite insert_desc_perm. constructor; [unfold desc; lia | exact Hall].
    + apply Z.ltb_ge in E. constructor; [by constructor|].
      constructor; [exact E|].
      eapply Forall_impl; [exact Hall|]. unfold desc. intros z Hz. lia.
Qed.

Lemma sort_desc_sorted l : StronglySorted (desc key) (sort_desc key l).
Proof.
  induction l as [|x l IH]; simpl; [constructor|].
  by apply insert_desc_sorted.
Qed.

Lemma insert_desc_with_key s x l :
  with_key key s (insert_desc key x l) = with_key key s (x :: l).
Proof.
  unfold with_key. induction l as [|y l IH]; simpl; [done|].
  destruct (key x <? key y) eqn:E; [|done].
  apply Z.ltb_lt in E.
  rewrite !filter_cons in *.
  destruct (decide (key x = s)), (decide (key y = s)); rewrite IH; try done; lia.
Qed.

Lemma sort_desc_with_key s l :
  with_key key s (sort_desc key l) = with_key key s l.
Proof.
  induction l as [|x l IH]; simpl; [done|].
  rewrite insert_desc_with_key. unfold with_key in *.
  by rewrite !filter_cons, IH.
Qed.

Lemma take_sorted k l :
  StronglySorted (desc key) l -> StronglySorted (desc key) (take k l).
Proof.
  intros Hs. rewrite <- (take_drop k l) in Hs.
  by apply StronglySorted_app_1_l in Hs.
Qed.

Lemma take_with_key s k l :
  with_key key s (take k l) `prefix_of` with_key key s l.
Proof.
  exists (with_key key s (drop k l)). unfold with_key.
  by rewrite <- filter_app, take_drop.
Qed.

(** A descending list is determined by its elements of each key, taken in
    order: two descending lists that agree on [with_key key s] for every [s] are
    equal. So a stable descending sort has one possible result. *)
Lemma sorted_stable_unique l1 l2 :
  StronglySorted (desc key) l1 -> StronglySorted (desc key) l2 ->
  (forall s, with_key key s l1 = with_key key s l2) -> l1 = l2.
Proof.
  intros H1. revert l2. induction H1 as [|a l1 Hs1 IH Hall1]; intros l2 H2 Heq.
  - destruct l2 as [|b l2]; [done|].
    specialize (Heq (key b)). unfold with_key in Heq.
    rewrite filter_cons in Heq. by destruct (decide (key b = key b)).
  - destruct H2 as [|b l2 Hs2 Hall2].
    + specialize (Heq (key a)). unfold with_key in Heq.
      rewrite filter_cons in Heq. by destruct (decide (key a = key a)).
    + assert (Hk : key a = key b).
      { pose proof (Heq (key a)) as Ha. pose proof (Heq (key b)) as Hb.
        unfold with_key in Ha, Hb. rewrite !filter_cons in Ha, Hb.
        destruct (decide (key a = key a)); [|done].
        destruct (decide (key b = key b)); [|done].
        destruct (decide (key b = key a)) as [|Hne]; [done|].
        destruct (decide (key a = key b)) as [|_]; [done|].
        assert (Ha2 : a ∈ l2).
        { eapply (list_elem_of_filter (fun x => key x = key a)).
          rewrite <- Ha. left. }
        assert (Hb1 : b ∈ l1).
        { eapply (list_elem_of_filter (fun x => key x = key b)).
          rewrite Hb. left. }
        rewrite Forall_forall in Hall1, Hall2.
        apply Hall1 in Hb1. apply Hall2 in Ha2. unfold desc in *. lia. }
      assert (a = b).
      { specialize (Heq (key a)). unfold with_key in Heq.
        rewrite !filter_cons in Heq.
        destruct (decide (key a = key a)); [|done].
        destruct (decide (key b = key a)); [|done]. congruence. }
      subst b. f_equal. apply IH; [done|].
      intros s. specialize (Heq s). unfold with_key in *.
      rewrite !filter_cons in Heq.
      destruct (decide (key a = s)); congruence.
Qed.

End SortFacts.

(** ** [utils.py] *)

Module UtilsFacts.
Import Utils.

(** C6. For non-negative [v], [f], [r] the score is [v + 2*f + 3*r]; an
    omitted [reactions] counts as 0; and raising any one argument, the others
    fixed, never lowers the score. The function is total: it is defined, with
    this value, on every triple of integers. *)
Theorem calculate_interaction_score_spec (v f r : Z) :
  0 <= v -> 0 <= f -> 0 <= r ->
  calculate_interaction_score v f (Some r) = v + 2 * f + 3 * r /\
  calculate_interaction_score v f None = calculate_interaction_score v f (Some 0) /\
  (forall v', v <= v' ->
     calculate_interaction_score v f (Some r)
     <= calculate_interaction_score v' f (Some r)) /\
  (forall f', f <= f' ->
     calculate_interaction_score v f (Some r)
     <= calculate_interaction_score v f' (Some r)) /\
  (forall r', r <= r' ->
     calculate_interaction_score v f (Some r)
     <= calculate_interaction_score v f (Some r')).
Proof.
  intros _ _ _. unfold calculate_interaction_score. simpl.
  repeat split; intros; lia.
Qed.

Lemma calculate_interaction_score_spec_witness :
  calculate_interaction_score 100 7 (Some 2) = 100 + 2 * 7 + 3 * 2 /\
  calculate_interaction_score 100 7 None = calculate_interaction_score 100 7 (Some 0) /\
  (forall v', 100 <= v' ->
     calculate_interaction_score 100 7 (Some 2)
     <= calculate_interaction_score v' 7 (Some 2)) /\
  (forall f', 7 <= f' ->
     calculate_interaction_score 100 7 (Some 2)
     <= calculate_interaction_score 100 f' (Some 2)) /\
  (forall r', 2 <= r' ->
     calculate_interaction_score 100 7 (Some 2)
     <= calculate_interaction_score 100 7 (Some r')).
Proof. apply (calculate_interaction_score_spec 100 7 2); lia. Defined.

(** C10. [validate_post_data] answers [True] exactly when the six required
    keys are present; the values under them are not inspected. *)
Theorem validate_post_data_spec (post : gmap string pyval) :
  validate_post_data post = true <->
  is_Some (post !! "channel"%string) /\ is_Some (post !! "id"%string) /\
  is_Some (post !! "text"%string) /\ is_Some (post !! "views"%string) /\
  is_Some (post !! "forwards"%string) /\ is_Some (post !! "has_media"%string).
Proof.
  unfold validate_post_data, required_fields. cbn [forallb].
  rewrite !andb_true_iff, !bool_decide_eq_true. intuition.
Qed.

(** A post whose text is [None] and whose counters are negative passes. *)
Example validate_post_data_any_values :
  validate_post_data
    (<["channel"%string := PNone]> (<["id"%string := PInt (-1)]>
    (<["text"%string := PNone]> (<["views"%string := PInt (-5)]>
    (<["forwards"%string := PInt (-7)]>
    (<["has_media"%string := PStr []]> ∅)))))) = true.
Proof. by vm_compute. Qed.

(** A post without the [text] key fails. *)
Example validate_post_data_missing_key :
  validate_post_data
    (<["channel"%string := PStr (str "a")]> (<["id"%string := PInt 1]>
    (<["views"%string := PInt 5]> (<["forwards"%string := PInt 7]>
    (<["has_media"%string := PBool false]> ∅))))) = false.
Proof. by vm_compute. Qed.

(** The entity [html.escape] writes for one character. *)
Lemma escape_cons (c : N) (s : pystr) :
  PyStr.escape (c :: s) =
  (if (c =? 38)%N then str "&amp;"
   else if (c =? 60)%N then str "&lt;"
   else if (c =? 62)%N then str "&gt;"
   else if (c =? 34)%N then str "&quot;"
   else if (c =? 39)%N then str "&#x27;"
   else [c]) ++ PyStr.escape s.
Proof.
  unfold PyStr.escape, PyStr.replace. cbn [flat_map].
  destruct (N.eqb_spec c 38) as [->|H38]; [by rewrite !flat_map_app|].
  destruct (N.eqb_spec c 60) as [->|H60]; [by rewrite !flat_map_app|].
  destruct (N.eqb_spec c 62) as [->|H62]; [by rewrite !flat_map_app|].
  destruct (N.eqb_spec c 34) as [->|H34]; [by rewrite !flat_map_app|].
  destruct (N.eqb_spec c 39) as [->|H39]; [by rewrite !flat_map_app|].
  cbn [app flat_map].
  apply N.eqb_neq in H60, H62, H34, H39.
  rewrite H60. cbn [app flat_map]. rewrite H62. cbn [app flat_map].
  rewrite H34. cbn [app flat_map]. rewrite H39. reflexivity.
Qed.

Lemma lstrip_nil (s : pystr) :
  PyStr.lstrip s = [] <-> forallb PyStr.isspace s = true.
Proof.
  induction s as [|c s IH]; simpl; [done|].
  destruct (PyStr.isspace c); simpl; [exact IH|]. split; discriminate.
Qed.

Lemma lstrip_head (s : pystr) :
  match PyStr.lstrip s with
  | [] => True
  | c :: _ => PyStr.isspace c = false
  end.
Proof.
  induction s as [|c s IH]; simpl; [done|].
  destruct (PyStr.isspace c) eqn:E; [exact IH | exact E].
Qed.

Lemma forallb_reverse {A} (p : A -> bool) (l : list A) :
  forallb p (reverse l) = forallb p l.
Proof.
  induction l as [|x l IH]; [done|].
  rewrite reverse_cons, forallb_app, IH. simpl.
  rewrite andb_true_r. apply andb_comm.
Qed.

(** [s.strip()] is empty exactly when [s] is made of whitespace only (the
    empty string included). *)
Lemma strip_nil (s : pystr) :
  PyStr.strip s = [] <-> forallb PyStr.isspace s = true.
Proof.
  unfold PyStr.strip, PyStr.rstrip. split.
  - intros H. apply (f_equal reverse) in H. rewrite reverse_involutive in H.
    change (reverse []) with (@nil N) in H. apply lstrip_nil in H.
    rewrite forallb_reverse in H.
    pose proof (lstrip_head s) as Hh.
    destruct (PyStr.lstrip s) as [|c r] eqn:E.
    + by apply lstrip_nil.
    + simpl in H. rewrite Hh in H. discriminate.
  - intros H. apply lstrip_nil in H. by rewrite H.
Qed.

(** The caption of a post whose text is [text]. *)
Lemma caption_of_text (post : gmap string pyval) (text : pystr) :
  default (PStr []) (post !! "text"%string) = PStr text ->
  format_post_caption post =
    Ok ((if forallb PyStr.isspace (PyStr.escape text)
         then placeholder else PyStr.escape text) ++ footer).
Proof.
  intros Hget. unfold format_post_caption. rewrite Hget.
  pose proof (strip_nil (PyStr.escape text)) as Hs.
  destruct (PyStr.strip (PyStr.escape text)) as [|c r].
  - rewrite (proj1 Hs eq_refl). reflexivity.
  - destruct (forallb PyStr.isspace (PyStr.escape text)); [|reflexivity].
    discriminate (proj2 Hs eq_refl).
Qed.

(** C8. For a post whose [text] is a string, or is absent (then the empty
    string is used), the caption is the escaped text, or the placeholder when
    the escaped text is empty or all whitespace, followed by the footer. The
    two examples of the specification are instances. *)
Theorem format_post_caption_spec (post : gmap string pyval) (text : pystr) :
  post !! "text"%string = Some (PStr text)
  \/ (post !! "text"%string = None /\ text = []) ->
  format_post_caption post =
    Ok ((if forallb PyStr.isspace (PyStr.escape text)
         then str "[Media post without text]"
         else PyStr.escape text)
        ++ [10; 10]%N ++ str "<blockquote>powered by Sinus-Alpha</blockquote>")
  /\ (text = str "<b>hi</b>" ->
      format_post_caption post =
        Ok (str "&lt;b&gt;hi&lt;/b&gt;"
            ++ [10; 10]%N ++ str "<blockquote>powered by Sinus-Alpha</blockquote>"))
  /\ (text = [] ->
      format_post_caption post =
        Ok (str "[Media post without text]"
            ++ [10; 10]%N ++ str "<blockquote>powered by Sinus-Alpha</blockquote>")).
Proof.
  intros Htext.
  assert (Hget : default (PStr []) (post !! "text"%string) = PStr text).
  { destruct Htext as [-> | [-> ->]]; reflexivity. }
  pose proof (caption_of_text post text Hget) as Hgen.
  split; [exact Hgen|]. split; intros ->; rewrite Hgen; reflexivity.
Qed.

Lemma format_post_caption_spec_witness :
  format_post_caption (<["text"%string := PStr (str "<b>hi</b>")]> ∅) =
    Ok (str "&lt;b&gt;hi&lt;/b&gt;"
        ++ [10; 10]%N ++ str "<blockquote>powered by Sinus-Alpha</blockquote>").
Proof.
  refine (proj1 (proj2 (format_post_caption_spec
            (<["text"%string := PStr (str "<b>hi</b>")]> ∅) (str "<b>hi</b>") _)) eq_refl).
  left. reflexivity.
Defined.

(** The escaped text is the character-by-character substitution of the five
    entities, whatever the order in which the replacements run. *)
Lemma escape_flat_map (s : pystr) :
  PyStr.escape s =
  flat_map (fun c =>
    if (c =? 38)%N then str "&amp;"
    else if (c =? 60)%N then str "&lt;"
    else if (c =? 62)%N then str "&gt;"
    else if (c =? 34)%N then str "&quot;"
    else if (c =? 39)%N then str "&#x27;"
    else [c]) s.
Proof.
  induction s as [|c s IH]; [reflexivity|].
  rewrite escape_cons. cbn [flat_map]. by rewrite IH.
Qed.

(** A text of whitespace only, here a no-break space and a tab, gives the
    placeholder. *)
Example format_post_caption_whitespace :
  format_post_caption (<["text"%string := PStr [160; 9]%N]> ∅) =
    Ok (placeholder ++ footer).
Proof. by vm_compute. Qed.

(** A [text] that is [None] makes [html.escape] raise. *)
Example format_post_caption_none :
  exists e, format_post_caption (<["text"%string := PNone]> ∅) = Raise e.
Proof. eexists. by vm_compute. Qed.

(** The posts the pipeline builds pass the validation and have a caption. *)
Lemma pipeline_post_valid (isoformat : Z -> pystr) (p : post) :
  validate_post_data (post_to_dict isoformat p) = true.
Proof.
  unfold validate_post_data, required_fields, post_to_dict. cbn [forallb].
  rewrite !andb_true_iff, !bool_decide_eq_true.
  repeat split; by simplify_map_eq.
Qed.

Lemma pipeline_post_caption (isoformat : Z -> pystr) (p : post) :
  exists caption, format_post_caption (post_to_dict isoformat p) = Ok caption.
Proof.
  rewrite (caption_of_text (post_to_dict isoformat p) (text p)); [by eexists|].
  unfold post_to_dict. by simplify_map_eq.
Qed.

End UtilsFacts.

(** ** The window filter *)

(** C2. The loop keeps exactly the longest prefix of the messages whose dates
    are not before the cutoff: the messages split into the kept prefix, all
    of it recent, and a remainder that is empty or begins with a message
    older than the cutoff. Nothing of the remainder is kept, whatever its
    dates. This holds for any order of the messages, so in particular for
    the most-recent-first order the client gives. *)
Theorem collect_recent_prefix (channel : pystr) (current_time : Z)
    (messages : list message) :
  let cutoff_time := current_time - hours_24 in
  exists recent rest,
    messages = recent ++ rest /\
    collect_recent channel cutoff_time messages = map (make_post channel) recent /\
    Forall (fun msg => cutoff_time <= msg_date msg) recent /\
    match rest with
    | [] => True
    | msg :: _ => msg_date msg < cutoff_time
    end.
Proof.
  intros cutoff_time. induction messages as [|msg messages IH].
  - exists [], []. by repeat split.
  - simpl. destruct (cutoff_time <=? msg_date msg) eqn:E.
    + destruct IH as (recent & rest & -> & Hc & Hall & Hrest).
      exists (msg :: recent), rest. rewrite Hc.
      repeat split; [|exact Hrest]. constructor; [lia | exact Hall].
    + exists [], (msg :: messages). repeat split; [constructor | lia].
Qed.

(** A message that stands after a message older than the cutoff is never
    kept: the result is no longer than the position of any older message. *)
Lemma collect_recent_stops (channel : pystr) (cutoff_time : Z)
    (before after : list message) (old : message) :
  msg_date old < cutoff_time ->
  (length (collect_recent channel cutoff_time (before ++ old :: after))
   <= length before)%nat.
Proof.
  intros Hold. induction before as [|msg before IH]; simpl.
  - replace (cutoff_time <=? msg_date old) with false by lia. done.
  - destruct (cutoff_time <=? msg_date msg); simpl; lia.
Qed.

(** On messages ordered most recent first, stopping early loses nothing: the
    result is what filtering the whole list would give. *)
Lemma collect_recent_filter (channel : pystr) (cutoff_time : Z)
    (messages : list message) :
  StronglySorted (fun a b => msg_date b <= msg_date a) messages ->
  collect_recent channel cutoff_time messages =
  map (make_post channel) (filter (fun msg => cutoff_time <= msg_date msg) messages).
Proof.
  induction 1 as [|msg messages Hs IH Hall]; simpl; [done|].
  rewrite filter_cons. destruct (cutoff_time <=? msg_date msg) eqn:E.
  - destruct (decide (cutoff_time <= msg_date msg)); [|lia]. by rewrite IH.
  - destruct (decide (cutoff_time <= msg_date msg)) as [|Hold]; [lia|].
    assert (Hnil : filter (fun m => cutoff_time <= msg_date m) messages = []).
    { clear -Hall Hold. induction Hall as [|x l Hx _ IHl]; [done|].
      rewrite filter_cons_False; [done | lia]. }
    by rewrite Hnil.
Qed.

(** Early termination at work: with the cutoff at 5 (time 5 + 24 h), a
    message dated 9 that follows one dated 3 is dropped. *)
Example collect_recent_early_stop :
  map id (collect_recent (str "c") (hours_24 + 5 - hours_24)
    [Message 1 10 None None None None; Message 2 3 None None None None;
     Message 3 9 None None None None]) = [1].
Proof. reflexivity. Qed.

(** ** [main.py]: the per-channel selector *)

Module MainFacts.
Import Main.

Lemma ceil_fifth_bounds (n : Z) :
  5 * (ceil_fifth n - 1) < n <= 5 * ceil_fifth n.
Proof.
  unfold ceil_fifth.
  pose proof (Z.div_mod (- n) 5 ltac:(lia)).
  pose proof (Z.mod_pos_bound (- n) 5 ltac:(lia)). lia.
Qed.

(** Below 2^53 the float computation of the count is exact. *)
Lemma channel_top_count_spec (n : Z) :
  0 < n < 2 ^ 53 -> channel_top_count n = Ok (Z.max 1 (ceil_fifth n)).
Proof.
  intros Hn. unfold channel_top_count.
  destruct (PyFloatFacts.top_count_ceil n Hn) as (x & -> & ->). reflexivity.
Qed.

Lemma spec_selected_count_bounds (n : Z) :
  0 <= n -> 0 <= spec_selected_count n <= n.
Proof.
  intros Hn. unfold spec_selected_count.
  destruct (n =? 0) eqn:E; [lia|]. apply Z.eqb_neq in E.
  pose proof (ceil_fifth_bounds n). lia.
Qed.

Lemma slice_to_len {A} (k : Z) (l : list A) :
  0 <= k <= len l -> len (slice_to k l) = k.
Proof.
  unfold slice_to, len. intros Hk.
  replace (0 <=? k) with true by lia.
  rewrite length_take. lia.
Qed.

(** What [select_top] stores for a channel with [n] recent posts. *)
Lemma select_top_spec (channel : pystr) (channel_posts : list post) :
  len channel_posts < 2 ^ 53 ->
  exists line,
    select_top channel channel_posts =
    Ok ({| total_posts := len channel_posts;
           selected_posts := spec_selected_count (len channel_posts);
           posts := take (Z.to_nat (spec_selected_count (len channel_posts)))
                         (sort_desc interaction_score channel_posts);
           error := None |}, line).
Proof.
  intros Hn. unfold select_top.
  pose proof (sort_desc_length interaction_score channel_posts) as Hlen.
  destruct (sort_desc interaction_score channel_posts) as [|p sorted] eqn:Es.
  - destruct channel_posts; [|discriminate Hlen].
    eexists. reflexivity.
  - assert (Hl : len (p :: sorted) = len channel_posts)
      by (unfold len; by rewrite Hlen).
    rewrite Hl.
    assert (Hpos : 0 < len channel_posts)
      by (rewrite <- Hl; unfold len; simpl; lia).
    rewrite channel_top_count_spec by lia.
    eexists. unfold spec_selected_count.
    replace (len channel_posts =? 0) with false by lia.
    unfold slice_to.
    replace (0 <=? Z.max 1 (ceil_fifth (len channel_posts))) with true by lia.
    reflexivity.
Qed.

(** *** The dict of entries *)

Lemma dict_set_keys {V} (f : pystr -> V) (k : pystr) (keys : list pystr) :
  dict_set k (f k) (map (fun c => (c, f c)) keys) =
  map (fun c => (c, f c)) (add_key keys k).
Proof.
  unfold add_key. induction keys as [|c keys IH]; simpl.
  - destruct (decide (k ∈ [])) as [Hin|_]; [by apply elem_of_nil in Hin | done].
  - destruct (decide (c = k)) as [->|Hne].
    + destruct (decide (k ∈ k :: keys)) as [|Hnin]; [done|].
      exfalso. apply Hnin. left.
    + rewrite IH. destruct (decide (k ∈ keys)) as [Hin|Hnin].
      * destruct (decide (k ∈ c :: keys)) as [|Hn]; [done|].
        exfalso. apply Hn. by right.
      * destruct (decide (k ∈ c :: keys)) as [Hin|_]; [|done].
        apply elem_of_cons in Hin as [->|Hin]; done.
Qed.

Lemma process_channel_dict client limit cutoff st channel :
  all_posts_by_channel (process_channel client limit cutoff st channel) =
  dict_set channel (channel_entry client limit cutoff channel)
    (all_posts_by_channel st).
Proof.
  unfold process_channel, channel_entry.
  by destruct (try_channel client limit cutoff channel) as [[data line]|e].
Qed.

Lemma process_channels_dict client limit cutoff channels st keys :
  all_posts_by_channel st =
    map (fun c => (c, channel_entry client limit cutoff c)) keys ->
  all_posts_by_channel (process_channels client limit cutoff channels st) =
    map (fun c => (c, channel_entry client limit cutoff c))
        (fold_left add_key channels keys).
Proof.
  unfold process_channels. revert st keys.
  induction channels as [|ch channels IH]; intros st keys Hst; simpl; [done|].
  apply IH. rewrite process_channel_dict, Hst. apply dict_set_keys.
Qed.

(** The dict after the loop: one entry per channel, in the order of first
    occurrence. *)
Lemma analyse_dict current_time client channels limit :
  channels_analysis (analyse current_time client channels limit).1 =
  map (fun c => (c, channel_entry client limit (current_time - hours_24) c))
      (channel_keys channels).
Proof.
  unfold analyse, channel_keys.
  destruct (combine _) as [[? ?] ?]. cbn [fst channels_analysis].
  by apply process_channels_dict.
Qed.

Lemma add_key_elem_of keys channels c :
  c ∈ fold_left add_key channels keys <-> c ∈ keys \/ c ∈ channels.
Proof.
  revert keys. induction channels as [|ch channels IH]; intros keys; simpl.
  - rewrite elem_of_nil. tauto.
  - rewrite IH, elem_of_cons. unfold add_key.
    destruct (decide (ch ∈ keys)) as [Hin|Hnin].
    + split; [tauto|]. intros [H|[->|H]]; tauto.
    + rewrite elem_of_app, list_elem_of_singleton. tauto.
Qed.

Lemma channel_keys_elem_of channels c :
  c ∈ channel_keys channels <-> c ∈ channels.
Proof.
  unfold channel_keys. rewrite add_key_elem_of, elem_of_nil. tauto.
Qed.

Lemma dict_get_map {V} (f : pystr -> V) (keys : list pystr) (c : pystr) :
  dict_get c (map (fun k => (k, f k)) keys) =
  if decide (c ∈ keys) then Some (f c) else None.
Proof.
  induction keys as [|k keys IH]; simpl.
  - destruct (decide (c ∈ [])) as [Hin|_]; [by apply elem_of_nil in Hin | done].
  - destruct (decide (k = c)) as [->|Hne].
    + destruct (decide (c ∈ c :: keys)) as [|Hn]; [done|]. exfalso. apply Hn. left.
    + rewrite IH. destruct (decide (c ∈ keys)) as [Hin|Hnin].
      * destruct (decide (c ∈ k :: keys)) as [|Hn]; [done|].
        exfalso. apply Hn. by right.
      * destruct (decide (c ∈ k :: keys)) as [Hin|_]; [|done].
        apply elem_of_cons in Hin as [->|Hin]; done.
Qed.

(** Reading the dict after the loop. *)
Lemma analyse_dict_get current_time client channels limit c :
  dict_get c (channels_analysis (analyse current_time client channels limit).1) =
  if decide (c ∈ channels)
  then Some (channel_entry client limit (current_time - hours_24) c)
  else None.
Proof.
  rewrite analyse_dict, dict_get_map.
  destruct (decide (c ∈ channel_keys channels)) as [Hin|Hnin];
    destruct (decide (c ∈ channels)) as [Hin'|Hnin']; try done;
    rewrite channel_keys_elem_of in *; done.
Qed.

(** The entry of a channel that was fetched, in terms of its recent posts. *)
Lemma channel_entry_ok client limit cutoff channel messages :
  client channel limit = FetchOk messages ->
  len (collect_recent channel cutoff messages) < 2 ^ 53 ->
  channel_entry client limit cutoff channel =
  let n := len (collect_recent channel cutoff messages) in
  {| total_posts := n;
     selected_posts := spec_selected_count n;
     posts := take (Z.to_nat (spec_selected_count n))
                (sort_desc interaction_score (collect_recent channel cutoff messages));
     error := None |}.
Proof.
  intros Hc Hn. unfold channel_entry, try_channel. rewrite Hc.
  destruct (select_top_spec channel _ Hn) as [line ->]. reflexivity.
Qed.

Lemma channel_entry_raises client limit cutoff channel e :
  client channel limit = FetchRaises e ->
  channel_entry client limit cutoff channel =
  {| total_posts := 0; selected_posts := 0; posts := []; error := Some e |}.
Proof. intros Hc. unfold channel_entry, try_channel. by rewrite Hc. Qed.

Lemma take_spec_len {A} (l : list A) :
  len (take (Z.to_nat (spec_selected_count (len l))) l) = spec_selected_count (len l).
Proof.
  pose proof (spec_selected_count_bounds (len l)) as Hb.
  unfold len in *. rewrite length_take. lia.
Qed.

(** C1. A channel that was fetched and has [n] posts inside the window gets
    an entry whose [total_posts] is [n], whose [selected_posts] is
    [max(1, ceil(n * 0.2))] for [n > 0] and 0 for [n = 0] (the ceiling taken
    in exact arithmetic, see [ceil_fifth_bounds]), and whose list of posts
    has exactly that length. The float computation of the source agrees with
    the exact value for every length below 2^53. *)
Theorem selected_count_spec (current_time : Z) (client : client_t)
    (channels : list pystr) (limit : Z) (channel : pystr)
    (messages : list message) :
  channel ∈ channels ->
  client channel limit = FetchOk messages ->
  len (collect_recent channel (current_time - hours_24) messages) < 2 ^ 53 ->
  let n := len (collect_recent channel (current_time - hours_24) messages) in
  exists data,
    dict_get channel
      (channels_analysis (analyse current_time client channels limit).1)
    = Some data /\
    total_posts data = n /\
    selected_posts data = (if n =? 0 then 0 else Z.max 1 (ceil_fifth n)) /\
    len (posts data) = selected_posts data /\
    error data = None.
Proof.
  intros Hin Hc Hn n. rewrite analyse_dict_get.
  destruct (decide (channel ∈ channels)); [|done].
  rewrite (channel_entry_ok _ _ _ _ _ Hc Hn). cbv zeta. fold n.
  eexists. split; [reflexivity|]. cbn [total_posts selected_posts posts error].
  repeat split. subst n.
  pose proof (take_spec_len
    (sort_desc interaction_score
       (collect_recent channel (current_time - hours_24) messages))) as Ht.
  unfold len in *. rewrite sort_desc_length in Ht. exact Ht.
Qed.

Lemma selected_count_spec_witness :
  exists data,
    dict_get (str "news")
      (channels_analysis (analyse Sample.now Sample.client Sample.channels 50).1)
    = Some data /\
    total_posts data = 6 /\ selected_posts data = 2 /\
    len (posts data) = selected_posts data /\ error data = None.
Proof.
  refine (selected_count_spec Sample.now Sample.client Sample.channels 50
            (str "news") Sample.news _ _ _).
  - left.
  - reflexivity.
  - vm_compute. reflexivity.
Defined.

(** C3. The posts selected for a channel are in descending order of
    [interaction_score], and for each score the selected posts with that
    score are, in the same order, the first ones among the input posts with
    that score: ties keep the fetch order. *)
Theorem select_top_sorted_stable (channel : pystr) (channel_posts : list post) :
  len channel_posts < 2 ^ 53 ->
  exists data line,
    select_top channel channel_posts = Ok (data, line) /\
    StronglySorted (desc interaction_score) (posts data) /\
    forall s, with_key interaction_score s (posts data)
              `prefix_of` with_key interaction_score s channel_posts.
Proof.
  intros Hn. destruct (select_top_spec channel channel_posts Hn) as [line Hsel].
  eexists _, line. split; [exact Hsel|]. cbn [posts]. split.
  - apply take_sorted, sort_desc_sorted.
  - intros s. rewrite <- (sort_desc_with_key interaction_score s channel_posts).
    apply take_with_key.
Qed.

Lemma select_top_sorted_stable_witness :
  exists data line,
    select_top (str "news")
      (collect_recent (str "news") (Sample.now - hours_24) Sample.news)
    = Ok (data, line) /\
    StronglySorted (desc interaction_score) (posts data) /\
    forall s, with_key interaction_score s (posts data)
              `prefix_of` with_key interaction_score s
                 (collect_recent (str "news") (Sample.now - hours_24) Sample.news).
Proof.
  apply (select_top_sorted_stable (str "news")
           (collect_recent (str "news") (Sample.now - hours_24) Sample.news)).
  vm_compute. reflexivity.
Defined.

(** On the sample, [news] contributes its two best posts, best first. *)
Example select_top_sample :
  exists data line,
    select_top (str "news")
      (collect_recent (str "news") (Sample.now - hours_24) Sample.news)
    = Ok (data, line) /\
    map id (posts data) = [105; 103] /\
    map interaction_score (posts data) = [920; 380].
Proof. eexists _, _. split; [vm_compute; reflexivity|]. by split. Qed.

(** Two posts with the same score keep their fetch order. *)
Example sort_desc_ties :
  map id (sort_desc interaction_score
    [Post [] [] 5 0 5 0 1 false; Post [] [] 9 0 9 0 2 false;
     Post [] [] 5 0 5 0 3 false; Post [] [] 9 0 9 0 4 false]) = [2; 4; 1; 3].
Proof. reflexivity. Qed.

(** Why the bound: from 2^53 on, a length no longer converts to a float
    exactly, and far beyond it the float count leaves the exact one. At
    5 * 2^52 + 1 the source's expression gives 2^52, one less than the
    ceiling. *)
Example channel_top_count_beyond :
  channel_top_count (5 * 2 ^ 52 + 1) = Ok (2 ^ 52) /\
  ceil_fifth (5 * 2 ^ 52 + 1) = 2 ^ 52 + 1.
Proof. split; vm_compute; reflexivity. Qed.

(** *** The merge *)

Lemma combine_acc (d : list (pystr * channel_data)) (acc : list post) (t c : Z) :
  exists t',
    fold_left
      (fun '(all_selected_posts, total_posts_all_channels, total_selected_posts)
           '(_, data) =>
         (all_selected_posts ++ posts data,
          total_posts_all_channels + total_posts data,
          total_selected_posts + selected_posts data))
      d (acc, t, c)
    = (acc ++ flat_map (fun entry => posts entry.2) d, t', c + sum_selected d).
Proof.
  revert acc t c. induction d as [|[k data] d IH]; intros acc t c; simpl.
  - exists t. by rewrite app_nil_r, Z.add_0_r.
  - destruct (IH (acc ++ posts data) (t + total_posts data) (c + selected_posts data))
      as [t' ->].
    exists t'. rewrite <- app_assoc.
    change (sum_selected ((k, data) :: d)) with (selected_posts data + sum_selected d).
    f_equal. lia.
Qed.

Lemma combine_spec (d : list (pystr * channel_data)) :
  exists t', combine d = (flat_map (fun entry => posts entry.2) d, t', sum_selected d).
Proof. unfold combine. destruct (combine_acc d [] 0 0) as [t' ->]. by exists t'. Qed.

(** The returned list and the selected total, in terms of the dict. *)
Lemma analyse_selection current_time client channels limit :
  let data := (analyse current_time client channels limit).1 in
  final_selected_posts data =
    sort_desc interaction_score
      (flat_map (fun entry => posts entry.2) (channels_analysis data)) /\
  total_posts_selected data = sum_selected (channels_analysis data).
Proof.
  unfold analyse.
  destruct (combine_spec (all_posts_by_channel
    (process_channels client limit (current_time - hours_24) channels
       {| all_posts_by_channel := [];
          log := [InfoStart (len channels); InfoCutoff (current_time - hours_24)] |})))
    as [t' ->].
  by split.
Qed.

Lemma returned_final current_time disk client channels limit :
  returned (fetch_top_posts_with_client current_time disk client channels limit) =
  final_selected_posts (analyse current_time client channels limit).1.
Proof.
  unfold fetch_top_posts_with_client.
  destruct (analyse current_time client channels limit) as [data log].
  by destruct (disk data).
Qed.

Lemma sum_selected_len (f : pystr -> channel_data) (keys : list pystr) :
  (forall c, c ∈ keys -> len (posts (f c)) = selected_posts (f c)) ->
  len (flat_map (fun entry => posts entry.2) (map (fun c => (c, f c)) keys)) =
  sum_selected (map (fun c => (c, f c)) keys).
Proof.
  unfold len. induction keys as [|k keys IH]; intros Hall; simpl; [done|].
  change (sum_selected ((k, f k) :: map (fun c => (c, f c)) keys))
    with (selected_posts (f k) + sum_selected (map (fun c => (c, f c)) keys)).
  rewrite length_app, Nat2Z.inj_add, IH.
  - f_equal. apply Hall. left.
  - intros c Hc. apply Hall. by right.
Qed.

(** Every entry holds as many posts as its counter says. *)
Lemma channel_entry_len client limit cutoff channel :
  (forall messages, client channel limit = FetchOk messages ->
     len (collect_recent channel cutoff messages) < 2 ^ 53) ->
  len (posts (channel_entry client limit cutoff channel)) =
  selected_posts (channel_entry client limit cutoff channel).
Proof.
  intros Hb. destruct (client channel limit) as [messages|e] eqn:Hc.
  - rewrite (channel_entry_ok _ _ _ _ _ Hc (Hb _ eq_refl)).
    cbn [posts selected_posts].
    pose proof (take_spec_len
      (sort_desc interaction_score (collect_recent channel cutoff messages))) as Ht.
    unfold len in *. rewrite sort_desc_length in Ht. exact Ht.
  - by rewrite (channel_entry_raises _ _ _ _ _ Hc).
Qed.

(** C4. The returned list is the concatenation of the entries' selections,
    in the order of the dict, sorted again in descending order of
    [interaction_score] with ties keeping the order of the concatenation;
    its length is the sum of the entries' [selected_posts], which is also the
    total the snapshot records. *)
Theorem global_merge_spec (current_time : Z) (disk : disk_t) (client : client_t)
    (channels : list pystr) (limit : Z) :
  (forall channel messages,
     channel ∈ channels -> client channel limit = FetchOk messages ->
     len (collect_recent channel (current_time - hours_24) messages) < 2 ^ 53) ->
  let r := fetch_top_posts_with_client current_time disk client channels limit in
  let d := channels_analysis (analyse current_time client channels limit).1 in
  let merged := flat_map (fun entry => posts entry.2) d in
  returned r = sort_desc interaction_score merged /\
  StronglySorted (desc interaction_score) (returned r) /\
  (forall s, with_key interaction_score s (returned r)
             = with_key interaction_score s merged) /\
  len (returned r) = sum_selected d /\
  total_posts_selected (analyse current_time client channels limit).1
  = sum_selected d.
Proof.
  intros Hb r d merged.
  destruct (analyse_selection current_time client channels limit) as [Hfin Htot].
  assert (Hr : returned r = sort_desc interaction_score merged).
  { unfold r. rewrite returned_final. exact Hfin. }
  rewrite Hr. split; [done|]. split; [apply sort_desc_sorted|].
  split; [intros s; apply sort_desc_with_key|]. split; [|exact Htot].
  unfold len. rewrite sort_desc_length. unfold merged, d.
  rewrite analyse_dict. apply sum_selected_len.
  intros c Hc. apply channel_entry_len. intros messages Hm.
  apply Hb; [|exact Hm]. by apply channel_keys_elem_of.
Qed.

Lemma global_merge_spec_witness :
  let r := fetch_top_posts_with_client Sample.now Sample.good_disk Sample.client
             Sample.channels 50 in
  let d := channels_analysis
             (analyse Sample.now Sample.client Sample.channels 50).1 in
  let merged := flat_map (fun entry => posts entry.2) d in
  returned r = sort_desc interaction_score merged /\
  StronglySorted (desc interaction_score) (returned r) /\
  (forall s, with_key interaction_score s (returned r)
             = with_key interaction_score s merged) /\
  len (returned r) = sum_selected d /\
  total_posts_selected (analyse Sample.now Sample.client Sample.channels 50).1
  = sum_selected d.
Proof.
  apply (global_merge_spec Sample.now Sample.good_disk Sample.client
           Sample.channels 50).
  intros channel messages _ Hc. unfold Sample.client in Hc.
  destruct (decide (channel = str "news")) as [->|_].
  - injection Hc as <-. vm_compute. reflexivity.
  - destruct (decide (channel = str "digest")) as [->|_].
    + injection Hc as <-. vm_compute. reflexivity.
    + destruct (decide (channel = str "down")); [discriminate|].
      injection Hc as <-. vm_compute. reflexivity.
Defined.

(** The end-to-end scenario of the specification: filtered counts 10, 3 and
    0 give selected counts 2, 1 and 0, three posts in all. *)
Example selected_counts_10_3_0 :
  map spec_selected_count [10; 3; 0] = [2; 1; 0] /\
  map (fun n => channel_top_count n) [10; 3] = [Ok 2; Ok 1].
Proof. split; [reflexivity | vm_compute; reflexivity]. Qed.

(** *** A channel that cannot be fetched *)

Lemma process_channel_log client limit cutoff st channel :
  exists line,
    log (process_channel client limit cutoff st channel) =
      log st ++ [InfoProcessing channel; line] /\
    forall e, try_channel client limit cutoff channel = Raise e ->
              line = ErrorFetchFailed channel e.
Proof.
  unfold process_channel.
  destruct (try_channel client limit cutoff channel) as [[data line]|e].
  - exists line. split; [done|]. discriminate.
  - exists (ErrorFetchFailed channel e). split; [done|]. by intros e' [= ->].
Qed.

Lemma process_channels_log_mono client limit cutoff channels st ev :
  ev ∈ log st -> ev ∈ log (process_channels client limit cutoff channels st).
Proof.
  unfold process_channels. revert st.
  induction channels as [|ch channels IH]; intros st Hev; simpl; [done|].
  apply IH. destruct (process_channel_log client limit cutoff st ch) as (line & -> & _).
  apply elem_of_app. by left.
Qed.

Lemma process_channels_log_error client limit cutoff channels st channel e :
  channel ∈ channels ->
  try_channel client limit cutoff channel = Raise e ->
  ErrorFetchFailed channel e
  ∈ log (process_channels client limit cutoff channels st).
Proof.
  unfold process_channels. revert st.
  induction channels as [|ch channels IH]; intros st Hin Hr.
  - by apply elem_of_nil in Hin.
  - simpl. apply elem_of_cons in Hin as [<-|Hin].
    + apply (process_channels_log_mono client limit cutoff channels).
      destruct (process_channel_log client limit cutoff st channel)
        as (line & -> & Hline).
      rewrite (Hline e Hr). apply elem_of_app. right. right. left.
    + by apply IH.
Qed.

Lemma run_log_incl current_time disk client channels limit ev :
  ev ∈ log (process_channels client limit (current_time - hours_24) channels
              {| all_posts_by_channel := [];
                 log := [InfoStart (len channels);
                         InfoCutoff (current_time - hours_24)] |}) ->
  ev ∈ run_log (fetch_top_posts_with_client current_time disk client channels limit).
Proof.
  intros Hev. unfold fetch_top_posts_with_client, analyse.
  destruct (combine _) as [[? ?] ?].
  destruct (disk _); cbn [run_log]; rewrite !elem_of_app; tauto.
Qed.

Lemma add_key_filter (channel : pystr) (channels keys : list pystr) :
  fold_left add_key (filter (fun c => c ≠ channel) channels)
            (filter (fun c => c ≠ channel) keys)
  = filter (fun c => c ≠ channel) (fold_left add_key channels keys).
Proof.
  revert keys. induction channels as [|ch channels IH]; intros keys; simpl; [done|].
  rewrite filter_cons. destruct (decide (ch ≠ channel)) as [Hne|Heq].
  - simpl. rewrite <- IH. f_equal. unfold add_key.
    destruct (decide (ch ∈ keys)) as [Hin|Hnin].
    + destruct (decide (ch ∈ filter (fun c => c ≠ channel) keys)) as [|Hn]; [done|].
      exfalso. apply Hn. by apply list_elem_of_filter.
    + destruct (decide (ch ∈ filter (fun c => c ≠ channel) keys)) as [Hin|_].
      * apply list_elem_of_filter in Hin. tauto.
      * by rewrite filter_app, filter_cons_True.
  - rewrite <- IH. f_equal. unfold add_key.
    destruct (decide (ch ∈ keys)); [done|].
    by rewrite filter_app, filter_cons_False, filter_nil, app_nil_r.
Qed.

Lemma flat_map_filter_nil {B} (h : pystr -> list B) (channel : pystr)
    (keys : list pystr) :
  h channel = [] ->
  flat_map h (filter (fun c => c ≠ channel) keys) = flat_map h keys.
Proof.
  intros Hnil. induction keys as [|k keys IH]; simpl; [done|].
  rewrite filter_cons. destruct (decide (k ≠ channel)) as [Hne|Heq].
  - simpl. by rewrite IH.
  - apply dec_stable in Heq. subst k. by rewrite Hnil, IH.
Qed.

Lemma flat_map_entries (f : pystr -> channel_data) (keys : list pystr) :
  flat_map (fun entry => posts entry.2) (map (fun c => (c, f c)) keys)
  = flat_map (fun c => posts (f c)) keys.
Proof. induction keys as [|k keys IH]; simpl; [done|]. by rewrite IH. Qed.

(** C7. When fetching a channel raises, its entry has zero [total_posts],
    zero [selected_posts], no posts and the error string; the failure is
    logged; every other channel gets the entry it would get in a run without
    the failed channel, and the returned list is that of such a run. The
    function returns in every case: no exception of a fetch leaves it. *)
Theorem fetch_failure_isolated (current_time : Z) (disk : disk_t)
    (client : client_t) (channels : list pystr) (limit : Z)
    (channel : pystr) (e : pystr) :
  channel ∈ channels ->
  client channel limit = FetchRaises e ->
  let others := filter (fun c => c ≠ channel) channels in
  dict_get channel
    (channels_analysis (analyse current_time client channels limit).1)
  = Some {| total_posts := 0; selected_posts := 0; posts := []; error := Some e |} /\
  ErrorFetchFailed channel e
  ∈ run_log (fetch_top_posts_with_client current_time disk client channels limit) /\
  (forall c, c ≠ channel ->
     dict_get c (channels_analysis (analyse current_time client channels limit).1)
     = dict_get c (channels_analysis (analyse current_time client others limit).1)) /\
  returned (fetch_top_posts_with_client current_time disk client channels limit)
  = returned (fetch_top_posts_with_client current_time disk client others limit).
Proof.
  intros Hin Hc others.
  pose proof (channel_entry_raises client limit (current_time - hours_24) channel e Hc)
    as Hentry.
  repeat split.
  - rewrite analyse_dict_get. destruct (decide (channel ∈ channels)); [|done].
    by rewrite Hentry.
  - apply run_log_incl. apply process_channels_log_error; [exact Hin|].
    unfold try_channel. by rewrite Hc.
  - intros c Hne. rewrite !analyse_dict_get.
    destruct (decide (c ∈ channels)) as [Hi|Hn];
      destruct (decide (c ∈ others)) as [Hi'|Hn']; try done.
    + exfalso. apply Hn'. by apply list_elem_of_filter.
    + apply list_elem_of_filter in Hi'. tauto.
  - rewrite !returned_final.
    destruct (analyse_selection current_time client channels limit) as [-> _].
    destruct (analyse_selection current_time client others limit) as [-> _].
    f_equal. rewrite !analyse_dict, !flat_map_entries.
    unfold channel_keys, others.
    pose proof (add_key_filter channel channels []) as Hk.
    rewrite filter_nil in Hk. rewrite Hk.
    symmetry. apply flat_map_filter_nil. by rewrite Hentry.
Qed.

Lemma fetch_failure_isolated_witness :
  let others := filter (fun c => c ≠ str "down") Sample.channels in
  dict_get (str "down")
    (channels_analysis (analyse Sample.now Sample.client Sample.channels 50).1)
  = Some {| total_posts := 0; selected_posts := 0; posts := [];
            error := Some (str "timeout") |} /\
  ErrorFetchFailed (str "down") (str "timeout")
  ∈ run_log (fetch_top_posts_with_client Sample.now Sample.full_disk Sample.client
               Sample.channels 50) /\
  (forall c, c ≠ str "down" ->
     dict_get c (channels_analysis
                   (analyse Sample.now Sample.client Sample.channels 50).1)
     = dict_get c (channels_analysis
                     (analyse Sample.now Sample.client others 50).1)) /\
  returned (fetch_top_posts_with_client Sample.now Sample.full_disk Sample.client
              Sample.channels 50)
  = returned (fetch_top_posts_with_client Sample.now Sample.full_disk Sample.client
                others 50).
Proof.
  apply (fetch_failure_isolated Sample.now Sample.full_disk Sample.client
           Sample.channels 50 (str "down") (str "timeout")).
  - right. left.
  - reflexivity.
Defined.

(** On the sample, the run returns the two posts of [news] although [down]
    failed, and the three channels all have an entry. *)
Example sample_run :
  map id (returned (fetch_top_posts_with_client Sample.now Sample.good_disk
                      Sample.client Sample.channels 50)) = [105; 103] /\
  map fst (channels_analysis
             (analyse Sample.now Sample.client Sample.channels 50).1)
  = Sample.channels.
Proof. split; vm_compute; reflexivity. Qed.

(** *** The snapshot *)

(** C9. Whatever the write of the snapshot does, the function returns the
    merged selection, the same list as when the write succeeds; when the
    write raises, the error is the last line logged and nothing is recorded
    as written. *)
Theorem snapshot_failure_isolated (current_time : Z) (disk : disk_t)
    (client : client_t) (channels : list pystr) (limit : Z) :
  let data := (analyse current_time client channels limit).1 in
  let r := fetch_top_posts_with_client current_time disk client channels limit in
  returned r = final_selected_posts data /\
  returned r
  = returned (fetch_top_posts_with_client current_time (fun _ => None)
                client channels limit) /\
  (forall e, disk data = Some e ->
     last (run_log r) = Some (ErrorSaveFailed e) /\ written r = None) /\
  (disk data = None ->
     last (run_log r) = Some InfoSaved /\ written r = Some data).
Proof.
  intros data r. unfold r, data. rewrite !returned_final.
  split; [reflexivity|]. split; [reflexivity|].
  unfold fetch_top_posts_with_client.
  destruct (analyse current_time client channels limit) as [d lg]. cbn [fst].
  split.
  - intros e He. rewrite He. cbn [run_log written]. by rewrite last_snoc.
  - intros He. rewrite He. cbn [run_log written]. by rewrite last_snoc.
Qed.

Lemma snapshot_failure_isolated_witness :
  last (run_log (fetch_top_posts_with_client Sample.now Sample.full_disk
                   Sample.client Sample.channels 50))
  = Some (ErrorSaveFailed (str "No space left on device")) /\
  written (fetch_top_posts_with_client Sample.now Sample.full_disk
             Sample.client Sample.channels 50) = None.
Proof.
  apply (proj1 (proj2 (proj2 (snapshot_failure_isolated Sample.now Sample.full_disk
                         Sample.client Sample.channels 50)))).
  reflexivity.
Defined.

End MainFacts.

(** ** [telegram_scraper.py]: the pool and the count *)

Module ScraperFacts.
Import Main MainFacts.

(** Below 2^52 the float computation of the scraper's count is exact. *)
Lemma top_count_spec (n : Z) :
  0 <= n < 2 ^ 52 -> Scraper.top_count n = Ok (Z.max 1 (n / 5)).
Proof.
  intros Hn. destruct (Z.eq_dec n 0) as [->|Hne]; [by vm_compute|].
  unfold Scraper.top_count.
  destruct (PyFloatFacts.top_count_trunc n ltac:(lia)) as (x & -> & ->).
  reflexivity.
Qed.

(** The posts the scraper pools: the recent posts of the channels that could
    be fetched, channel after channel. *)
Lemma pool_spec client limit cutoff channels acc :
  fold_left (Scraper.process_channel client limit cutoff) channels acc =
  acc ++ flat_map (recent_posts client limit cutoff) channels.
Proof.
  revert acc. induction channels as [|ch channels IH]; intros acc; simpl.
  - by rewrite app_nil_r.
  - rewrite IH. unfold Scraper.process_channel, recent_posts.
    destruct (client ch limit); [by rewrite <- app_assoc | done].
Qed.

Lemma collect_spec client limit cutoff channels :
  Scraper.collect client limit cutoff channels =
  flat_map (recent_posts client limit cutoff) channels.
Proof. unfold Scraper.collect. by rewrite pool_spec. Qed.

(** The count and the slice: the best [max(1, floor(N * 0.2))] of [N]
    posts. *)
Lemma scraper_select_spec (all_posts : list post) :
  len all_posts < 2 ^ 52 ->
  Scraper.select_top all_posts =
  Ok (Z.max 1 (len all_posts / 5),
      take (Z.to_nat (Z.max 1 (len all_posts / 5)))
        (sort_desc interaction_score all_posts)).
Proof.
  intros Hn. unfold Scraper.select_top.
  assert (Hl : len (sort_desc interaction_score all_posts) = len all_posts)
    by (unfold len; by rewrite sort_desc_length).
  rewrite Hl, top_count_spec by (unfold len in *; lia).
  unfold slice_to.
  by replace (0 <=? Z.max 1 (len all_posts / 5)) with true by lia.
Qed.

(** The outcome of the scraper: the exception of the start or of the
    disconnect, or else the best [max(1, floor(N * 0.2))] of all [N] pooled
    posts, whatever their channels. *)
Lemma scraper_spec current_time telethon channels limit :
  let pool :=
    flat_map (recent_posts (Scraper.answers telethon) limit
                (current_time - hours_24)) channels in
  len pool < 2 ^ 52 ->
  Scraper.fetch_top_posts_last_24h current_time telethon channels limit =
  match Scraper.start telethon with
  | Some e => Raise e
  | None =>
      match Scraper.disconnect telethon with
      | Some e => Raise e
      | None =>
          Ok (take (Z.to_nat (Z.max 1 (len pool / 5)))
                (sort_desc interaction_score pool))
      end
  end.
Proof.
  intros pool Hn. unfold Scraper.fetch_top_posts_last_24h.
  destruct (Scraper.start telethon); [done|].
  destruct (Scraper.disconnect telethon); [done|].
  rewrite collect_spec. fold pool. by rewrite scraper_select_spec.
Qed.

Lemma sort_desc_sorted_id {A} (key : A -> Z) (l : list A) :
  StronglySorted (desc key) l -> sort_desc key l = l.
Proof.
  intros Hs. apply (sorted_stable_unique key); [apply sort_desc_sorted | exact Hs |].
  intros s. apply sort_desc_with_key.
Qed.

(** The two counts for six posts: 2 in [main.py], 1 in the scraper. *)
Example counts_differ :
  channel_top_count 6 = Ok 2 /\ Scraper.top_count 6 = Ok 1.
Proof. split; vm_compute; reflexivity. Qed.

(** On [digest], five posts inside the window, the scraper returns the best
    one. *)
Example digest_selection :
  Scraper.fetch_top_posts_last_24h Sample.now SampleSession.session
    [str "digest"] 50
  = Ok [make_post (str "digest") (Sample.msg 105 2 900 10)].
Proof. vm_compute. reflexivity. Qed.

End ScraperFacts.

(** * Further facts *)

(** ** [main.py]: what a run returns *)

Module PipelineFacts.
Import Main MainFacts.

Lemma elem_of_collect_recent channel cutoff messages p :
  p ∈ collect_recent channel cutoff messages ->
  exists msg, msg ∈ messages /\ cutoff <= msg_date msg /\ p = make_post channel msg.
Proof.
  induction messages as [|msg messages IH]; simpl.
  - intros H. by apply elem_of_nil in H.
  - destruct (cutoff <=? msg_date msg) eqn:E.
    + intros [->|H]%elem_of_cons.
      * exists msg. split; [left|]. split; [lia | done].
      * destruct (IH H) as (m & Hm & Hd & ->). exists m. split; [by right | done].
    + intros H. by apply elem_of_nil in H.
Qed.

Lemma slice_to_sublist {A} (k : Z) (l : list A) : slice_to k l `sublist_of` l.
Proof. unfold slice_to. destruct (0 <=? k); apply sublist_take. Qed.

(** Whatever the count computation does, an entry holds only recent posts
    of its channel, each at most as often as it was fetched. *)
Lemma channel_entry_sub client limit cutoff channel :
  posts (channel_entry client limit cutoff channel)
  ⊆+ recent_posts client limit cutoff channel.
Proof.
  unfold channel_entry, try_channel, recent_posts.
  destruct (client channel limit) as [messages|e]; [|done].
  unfold select_top.
  pose proof (sort_desc_perm interaction_score
                (collect_recent channel cutoff messages)) as Hperm.
  destruct (sort_desc interaction_score (collect_recent channel cutoff messages))
    as [|p sorted] eqn:Es.
  - simpl. apply submseteq_nil_l.
  - destruct (channel_top_count (len (p :: sorted))) as [count|e]; simpl.
    + rewrite <- Hperm. apply sublist_submseteq, slice_to_sublist.
    + apply submseteq_nil_l.
Qed.

Lemma returned_perm current_time disk client channels limit :
  returned (fetch_top_posts_with_client current_time disk client channels limit)
  ≡ₚ flat_map (fun c => posts (channel_entry client limit (current_time - hours_24) c))
       (channel_keys channels).
Proof.
  rewrite returned_final.
  destruct (analyse_selection current_time client channels limit) as [-> _].
  rewrite sort_desc_perm, analyse_dict, flat_map_entries. done.
Qed.

Lemma flat_map_submseteq {A B} (f g : A -> list B) (l : list A) :
  (forall x, f x ⊆+ g x) -> flat_map f l ⊆+ flat_map g l.
Proof.
  intros H. induction l as [|x l IH]; simpl; [done|].
  by apply submseteq_app.
Qed.

(** X5. The returned posts are a sub-multiset of the recent posts of the
    distinct channels: no post is returned more often than it was fetched,
    a channel that is listed twice counting once. *)
Theorem returned_submseteq (current_time : Z) (disk : disk_t) (client : client_t)
    (channels : list pystr) (limit : Z) :
  returned (fetch_top_posts_with_client current_time disk client channels limit)
  ⊆+ flat_map (recent_posts client limit (current_time - hours_24))
       (channel_keys channels).
Proof.
  rewrite returned_perm. apply flat_map_submseteq.
  intros c. apply channel_entry_sub.
Qed.

Lemma returned_elem current_time disk client channels limit p :
  p ∈ returned (fetch_top_posts_with_client current_time disk client channels limit) ->
  exists channel, channel ∈ channels /\
    p ∈ recent_posts client limit (current_time - hours_24) channel.
Proof.
  rewrite returned_perm. intros Hp.
  apply list_elem_of_In, in_flat_map in Hp as (c & Hc & Hp).
  apply list_elem_of_In in Hc, Hp.
  exists c. split; [by apply channel_keys_elem_of|].
  eapply elem_of_submseteq; [exact Hp | apply channel_entry_sub].
Qed.

(** X2. Every returned post was built from a message that the client gave
    for one of the listed channels and that is dated inside the window: the
    function never returns a post older than the cutoff, nor one of a
    channel that was not asked for. *)
Theorem returned_provenance (current_time : Z) (disk : disk_t)
    (client : client_t) (channels : list pystr) (limit : Z) (p : post) :
  p ∈ returned (fetch_top_posts_with_client current_time disk client channels limit) ->
  exists channel messages msg,
    channel ∈ channels /\
    client channel limit = FetchOk messages /\
    msg ∈ messages /\
    current_time - hours_24 <= msg_date msg /\
    p = make_post channel msg.
Proof.
  intros Hp. destruct (returned_elem _ _ _ _ _ _ Hp) as (c & Hc & Hr).
  unfold recent_posts in Hr.
  destruct (client c limit) as [messages|e] eqn:Hcl;
    [|by apply elem_of_nil in Hr].
  destruct (elem_of_collect_recent _ _ _ _ Hr) as (msg & Hm & Hd & ->).
  by exists c, messages, msg.
Qed.

Lemma returned_provenance_witness :
  exists channel messages msg,
    channel ∈ Sample.channels /\
    Sample.client channel 50 = FetchOk messages /\
    msg ∈ messages /\
    Sample.now - hours_24 <= msg_date msg /\
    make_post (str "news") (Sample.msg 105 2 900 10) = make_post channel msg.
Proof.
  apply (returned_provenance Sample.now Sample.good_disk Sample.client
           Sample.channels 50).
  vm_compute. left.
Defined.

Lemma make_post_engagement channel msg :
  interaction_score (make_post channel msg) = engagement (make_post channel msg).
Proof.
  unfold make_post, engagement, Utils.calculate_interaction_score. simpl. lia.
Qed.

Lemma returned_engagement current_time disk client channels limit p :
  p ∈ returned (fetch_top_posts_with_client current_time disk client channels limit) ->
  interaction_score p = engagement p.
Proof.
  intros Hp. destruct (returned_elem _ _ _ _ _ _ Hp) as (c & Hc & Hr).
  unfold recent_posts in Hr.
  destruct (client c limit) as [messages|e]; [|by apply elem_of_nil in Hr].
  destruct (elem_of_collect_recent _ _ _ _ Hr) as (msg & _ & _ & ->).
  apply make_post_engagement.
Qed.

Lemma StronglySorted_change {A} (R R' : A -> A -> Prop) (P : A -> Prop) (l : list A) :
  (forall a b, P a -> P b -> R a b -> R' a b) ->
  Forall P l -> StronglySorted R l -> StronglySorted R' l.
Proof.
  intros HR HP Hs. induction Hs as [|a l Hs IH Hall]; [constructor|].
  apply Forall_cons in HP as [Ha HP]. constructor; [by apply IH|].
  rewrite Forall_forall in *. intros b Hb. apply HR; auto.
Qed.

(** X3. The stored score of every returned post is [views + 2 * forwards]
    of that same post, so the returned list is in descending order of
    [views + 2 * forwards]: the order of publication is the order of the
    counters the snapshot shows. *)
Theorem returned_sorted_by_counters (current_time : Z) (disk : disk_t)
    (client : client_t) (channels : list pystr) (limit : Z) :
  let r := returned (fetch_top_posts_with_client current_time disk client
                       channels limit) in
  Forall (fun p => interaction_score p = views p + 2 * forwards p) r /\
  StronglySorted (fun a b => views b + 2 * forwards b <= views a + 2 * forwards a) r.
Proof.
  intros r.
  assert (Hall : Forall (fun p => interaction_score p = engagement p) r).
  { apply Forall_forall. intros p Hp. by eapply returned_engagement. }
  split; [exact Hall|].
  apply (StronglySorted_change (desc interaction_score) _
           (fun p => interaction_score p = engagement p)); [|exact Hall|].
  - unfold desc, engagement. intros a b Ha Hb. lia.
  - unfold r. rewrite returned_final.
    destruct (analyse_selection current_time client channels limit) as [-> _].
    apply sort_desc_sorted.
Qed.

(** The head of a descending list is a maximum. *)
Lemma sort_desc_head {A} (key : A -> Z) (l : list A) (p : A) (rest : list A) :
  sort_desc key l = p :: rest -> p ∈ l /\ forall q, q ∈ l -> key q <= key p.
Proof.
  intros Hs. pose proof (sort_desc_perm key l) as Hperm.
  pose proof (sort_desc_sorted key l) as Hsorted. rewrite Hs in Hperm, Hsorted.
  split.
  - rewrite <- Hperm. left.
  - intros q Hq. rewrite <- Hperm in Hq.
    apply StronglySorted_inv in Hsorted as [_ Hall].
    apply elem_of_cons in Hq as [->|Hq]; [lia|].
    rewrite Forall_forall in Hall. by apply Hall.
Qed.

Lemma elem_of_returned current_time disk client channels limit name p :
  name ∈ channels ->
  p ∈ posts (channel_entry client limit (current_time - hours_24) name) ->
  p ∈ returned (fetch_top_posts_with_client current_time disk client channels limit).
Proof.
  intros Hn Hp. rewrite returned_perm.
  apply list_elem_of_In, in_flat_map. exists name.
  split; apply list_elem_of_In; [by apply channel_keys_elem_of | done].
Qed.

(** A channel with a recent post has one of its best posts returned. *)
Lemma representative (current_time : Z) (disk : disk_t)
    (client : client_t) (channels : list pystr) (limit : Z) (name : pystr) :
  let recent := recent_posts client limit (current_time - hours_24) name in
  name ∈ channels ->
  recent <> [] ->
  len recent < 2 ^ 53 ->
  exists best,
    best ∈ returned (fetch_top_posts_with_client current_time disk client
                       channels limit) /\
    best ∈ recent /\
    channel best = name /\
    forall q, q ∈ recent -> interaction_score q <= interaction_score best.
Proof.
  intros recent Hin Hne Hlen. unfold recent_posts in recent.
  destruct (client name limit) as [messages|e] eqn:Hc; [|done].
  pose proof (sort_desc_length interaction_score recent) as Hsl.
  destruct (sort_desc interaction_score recent) as [|best rest] eqn:Hs.
  { destruct recent; [done | discriminate Hsl]. }
  destruct (sort_desc_head _ _ _ _ Hs) as [Hbest Hmax].
  exists best. split; [|split; [exact Hbest|split; [|exact Hmax]]].
  - apply (elem_of_returned _ _ _ _ _ name); [exact Hin|].
    rewrite (channel_entry_ok _ _ _ _ _ Hc Hlen). cbn [posts]. fold recent.
    rewrite Hs.
    assert (Hpos : 0 < len recent) by (unfold len; destruct recent; [done | simpl; lia]).
    unfold spec_selected_count. replace (len recent =? 0) with false by lia.
    destruct (Z.to_nat (Z.max 1 (ceil_fifth (len recent)))) as [|k] eqn:Ek; [lia|].
    left.
  - destruct (elem_of_collect_recent _ _ _ _ Hbest) as (msg & _ & _ & ->). done.
Qed.

(** X4. Every channel that was fetched and has a post inside the window is
    represented in the returned list by one of its best posts: a post of
    that channel whose score no other recent post of the channel exceeds. *)
Theorem fair_representation (current_time : Z) (disk : disk_t)
    (client : client_t) (channels : list pystr) (limit : Z) (name : pystr) :
  let recent := recent_posts client limit (current_time - hours_24) name in
  name ∈ channels ->
  recent <> [] ->
  len recent < 2 ^ 53 ->
  exists best,
    best ∈ returned (fetch_top_posts_with_client current_time disk client
                       channels limit) /\
    best ∈ recent /\
    channel best = name /\
    forall q, q ∈ recent -> interaction_score q <= interaction_score best.
Proof. apply representative. Qed.

Lemma fair_representation_witness :
  exists best,
    best ∈ returned (fetch_top_posts_with_client Sample.now Sample.good_disk
                       Sample.client Sample.channels 50) /\
    best ∈ recent_posts Sample.client 50 (Sample.now - hours_24) (str "news") /\
    channel best = str "news" /\
    forall q, q ∈ recent_posts Sample.client 50 (Sample.now - hours_24) (str "news") ->
              interaction_score q <= interaction_score best.
Proof.
  apply (fair_representation Sample.now Sample.good_disk Sample.client
           Sample.channels 50 (str "news")).
  - left.
  - vm_compute. discriminate.
  - vm_compute. reflexivity.
Defined.

(** *** The entries and the log *)

Lemma add_key_NoDup keys channels :
  NoDup keys -> NoDup (fold_left add_key channels keys).
Proof.
  revert keys. induction channels as [|ch channels IH]; intros keys Hnd; simpl; [done|].
  apply IH. unfold add_key. destruct (decide (ch ∈ keys)) as [|Hnin]; [done|].
  apply NoDup_app. split; [done|]. split; [|apply NoDup_singleton].
  intros x Hx Hx'. apply list_elem_of_singleton in Hx'. by subst.
Qed.

Lemma add_key_fresh keys channels :
  NoDup (keys ++ channels) -> fold_left add_key channels keys = keys ++ channels.
Proof.
  revert keys. induction channels as [|ch channels IH]; intros keys Hnd; simpl.
  - by rewrite app_nil_r.
  - unfold add_key at 2. destruct (decide (ch ∈ keys)) as [Hin|Hnin].
    + exfalso. apply NoDup_app in Hnd as (_ & Hdis & _).
      apply (Hdis ch Hin). left.
    + rewrite IH; rewrite <- app_assoc; done.
Qed.

(** X6. The dict of entries has one entry per distinct channel name: its
    keys are free of repetitions and are exactly the listed channels, and
    when no channel is listed twice they are the list itself, in order. A
    name that is listed twice is fetched twice but keeps one entry. *)
Theorem entries_keys (current_time : Z) (client : client_t)
    (channels : list pystr) (limit : Z) :
  let keys := map fst (channels_analysis
                         (analyse current_time client channels limit).1) in
  NoDup keys /\
  (forall c, c ∈ keys <-> c ∈ channels) /\
  (NoDup channels -> keys = channels).
Proof.
  intros keys. unfold keys. rewrite analyse_dict, map_map. simpl.
  rewrite map_id. unfold channel_keys. split; [|split].
  - apply add_key_NoDup. constructor.
  - intros c. apply channel_keys_elem_of.
  - intros Hnd. by rewrite add_key_fresh.
Qed.

Lemma entries_keys_witness :
  map fst (channels_analysis
             (analyse Sample.now Sample.client Sample.channels 50).1)
  = Sample.channels.
Proof.
  apply (entries_keys Sample.now Sample.client Sample.channels 50).
  apply (bool_decide_unpack _). vm_compute. exact I.
Defined.

Lemma process_channels_lines client limit cutoff channels st :
  omap processing_line (log (process_channels client limit cutoff channels st))
  = omap processing_line (log st) ++ channels.
Proof.
  unfold process_channels. revert st.
  induction channels as [|ch channels IH]; intros st; simpl.
  - by rewrite app_nil_r.
  - rewrite IH. unfold process_channel.
    destruct (try_channel client limit cutoff ch) as [[data line]|e] eqn:Ht;
      cbn [log]; rewrite omap_app; simpl.
    + assert (Hline : processing_line line = None).
      { unfold try_channel in Ht.
        destruct (client ch limit) as [messages|?]; [|discriminate].
        unfold select_top in Ht.
        destruct (sort_desc _ _); [by injection Ht as <- <-|].
        destruct (channel_top_count _); [by injection Ht as <- <-|discriminate]. }
      rewrite Hline. by rewrite <- app_assoc.
    + by rewrite <- app_assoc.
Qed.

Lemma summary_line_not_processing entry : processing_line (summary_line entry) = None.
Proof.
  destruct entry as [c data]. unfold summary_line.
  destruct (0 <? selected_posts data); [done|]. by destruct (error data).
Qed.

(** X7. Every listed channel is processed, in the order of the list and as
    often as it is listed, whatever happens to the channels before it: the
    "Processing channel" lines of the log are the channel list itself. *)
Theorem every_channel_processed (current_time : Z) (disk : disk_t)
    (client : client_t) (channels : list pystr) (limit : Z) :
  omap processing_line
    (run_log (fetch_top_posts_with_client current_time disk client channels limit))
  = channels.
Proof.
  unfold fetch_top_posts_with_client, analyse.
  destruct (combine _) as [[merged found] selected].
  assert (Hsum : forall d : list (pystr * channel_data),
            omap processing_line (map summary_line d) = []).
  { induction d as [|entry d IH]; [done|].
    change (omap processing_line (map summary_line (entry :: d)))
      with (match processing_line (summary_line entry) with
            | Some c => c :: omap processing_line (map summary_line d)
            | None => omap processing_line (map summary_line d)
            end).
    by rewrite summary_line_not_processing. }
  destruct (disk _); cbn [run_log];
    rewrite !omap_app, process_channels_lines, Hsum; simpl;
    by rewrite !app_nil_r.
Qed.

Lemma flat_map_nil {A B} (f : A -> list B) (l : list A) :
  (forall x, x ∈ l -> f x = []) -> flat_map f l = [].
Proof.
  induction l as [|x l IH]; intros H; simpl; [done|].
  rewrite (H x) by left. apply IH. intros y Hy. apply H. by right.
Qed.

(** X8. A run returns nothing exactly when no listed channel has a post
    inside the window (a channel that cannot be fetched has none). *)
Theorem nothing_returned_iff (current_time : Z) (disk : disk_t)
    (client : client_t) (channels : list pystr) (limit : Z) :
  (forall name, name ∈ channels ->
     len (recent_posts client limit (current_time - hours_24) name) < 2 ^ 53) ->
  returned (fetch_top_posts_with_client current_time disk client channels limit) = []
  <-> forall name, name ∈ channels ->
        recent_posts client limit (current_time - hours_24) name = [].
Proof.
  intros Hb. split.
  - intros Hnil name Hin.
    destruct (recent_posts client limit (current_time - hours_24) name)
      as [|p recent] eqn:Hr; [done|exfalso].
    destruct (representative current_time disk client channels limit name Hin)
      as (best & Hbest & _).
    + by rewrite Hr.
    + apply Hb, Hin.
    + rewrite Hnil in Hbest. by apply elem_of_nil in Hbest.
  - intros Hall.
    pose proof (returned_perm current_time disk client channels limit) as Hperm.
    assert (Hflat : flat_map (fun c => posts (channel_entry client limit
                                        (current_time - hours_24) c))
                      (channel_keys channels) = []).
    { apply flat_map_nil. intros k Hk.
      apply (proj1 (channel_keys_elem_of channels k)) in Hk.
      pose proof (channel_entry_sub client limit (current_time - hours_24) k) as Hs.
      rewrite (Hall k Hk) in Hs. by apply submseteq_nil_r in Hs. }
    rewrite Hflat in Hperm. by apply Permutation_nil_r in Hperm.
Qed.

Lemma nothing_returned_iff_witness :
  returned (fetch_top_posts_with_client Sample.now Sample.good_disk Sample.client
              [str "down"; str "quiet"] 50) = []
  <-> forall name, name ∈ [str "down"; str "quiet"] ->
        recent_posts Sample.client 50 (Sample.now - hours_24) name = [].
Proof.
  apply (nothing_returned_iff Sample.now Sample.good_disk Sample.client
           [str "down"; str "quiet"] 50).
  intros name [->|[->|H]%elem_of_cons]%elem_of_cons.
  - vm_compute. reflexivity.
  - vm_compute. reflexivity.
  - by apply elem_of_nil in H.
Defined.

(** X1. When the messages are ordered most recent first, as the comment in
    the loop assumes, breaking at the first older message loses nothing: the
    posts kept are those of all the messages dated inside the window. *)
Theorem early_break_is_full_filter (name : pystr) (cutoff_time : Z)
    (messages : list message) :
  StronglySorted (fun a b => msg_date b <= msg_date a) messages ->
  collect_recent name cutoff_time messages =
  map (make_post name) (filter (fun msg => cutoff_time <= msg_date msg) messages).
Proof. apply collect_recent_filter. Qed.

Lemma early_break_is_full_filter_witness :
  collect_recent (str "news") (Sample.now - hours_24) Sample.news =
  map (make_post (str "news"))
      (filter (fun msg => Sample.now - hours_24 <= msg_date msg) Sample.news).
Proof.
  apply (early_break_is_full_filter (str "news") (Sample.now - hours_24) Sample.news).
  apply (bool_decide_unpack _). vm_compute. exact I.
Defined.

(** Without that order the break does lose posts: a recent message behind
    an old one is dropped although a filter would keep it. *)
Example early_break_unordered :
  let messages := [Sample.msg 1 30 0 0; Sample.msg 2 1 0 0] in
  collect_recent (str "c") (Sample.now - hours_24) messages = [] /\
  length (filter (fun msg => Sample.now - hours_24 <= msg_date msg) messages) = 1%nat.
Proof. split; vm_compute; reflexivity. Qed.

End PipelineFacts.

(** ** [telegram_scraper.py]: what the scraper returns *)

Module ScraperMoreFacts.
Import ScraperFacts.

(** X9. The scraper pools the recent posts of all listed channels, a channel
    as often as it is listed, and returns the [max(1, floor(N / 5))] best of
    the [N] pooled posts, best first; so unless the pool is empty it returns
    at least the best post of all. That is its result when the client starts
    and disconnects; when [TelegramClient(...)] or [client.start()] raises,
    or else [client.disconnect()] raises, that exception leaves the
    function. *)
Theorem scraper_selection (current_time : Z) (telethon : Scraper.session)
    (channels : list pystr) (limit : Z) :
  let pool := flat_map (recent_posts (Scraper.answers telethon) limit
                          (current_time - hours_24)) channels in
  let outcome :=
    Scraper.fetch_top_posts_last_24h current_time telethon channels limit in
  len pool < 2 ^ 52 ->
  match Scraper.start telethon, Scraper.disconnect telethon with
  | Some e, _ => outcome = Raise e
  | None, Some e => outcome = Raise e
  | None, None =>
      exists selected,
        outcome = Ok selected /\
        selected = take (Z.to_nat (Z.max 1 (len pool / 5)))
                     (sort_desc interaction_score pool) /\
        (pool <> [] ->
         exists best rest, selected = best :: rest /\
           forall q, q ∈ pool -> interaction_score q <= interaction_score best)
  end.
Proof.
  intros pool outcome Hn.
  pose proof (scraper_spec current_time telethon channels limit Hn) as Hs.
  fold pool outcome in Hs.
  destruct (Scraper.start telethon) as [e|]; [exact Hs|].
  destruct (Scraper.disconnect telethon) as [e|]; [exact Hs|].
  exists (take (Z.to_nat (Z.max 1 (len pool / 5))) (sort_desc interaction_score pool)).
  split; [exact Hs|]. split; [reflexivity|].
  intros Hne.
  pose proof (sort_desc_length interaction_score pool) as Hl.
  destruct (sort_desc interaction_score pool) as [|best rest] eqn:Hsort.
  { destruct pool; [done | discriminate Hl]. }
  destruct (PipelineFacts.sort_desc_head _ _ _ _ Hsort) as [_ Hmax].
  destruct (Z.to_nat (Z.max 1 (len pool / 5))) as [|k] eqn:Ek; [lia|].
  exists best, (take k rest). split; [reflexivity | exact Hmax].
Qed.

Lemma scraper_selection_witness :
  (exists selected,
     Scraper.fetch_top_posts_last_24h Sample.now SampleSession.session
       Sample.channels 50 = Ok selected /\
     selected =
       take (Z.to_nat (Z.max 1
               (len (flat_map (recent_posts Sample.client 50 (Sample.now - hours_24))
                       Sample.channels) / 5)))
         (sort_desc interaction_score
            (flat_map (recent_posts Sample.client 50 (Sample.now - hours_24))
               Sample.channels)) /\
     (flat_map (recent_posts Sample.client 50 (Sample.now - hours_24))
        Sample.channels <> [] ->
      exists best rest, selected = best :: rest /\
        forall q, q ∈ flat_map (recent_posts Sample.client 50 (Sample.now - hours_24))
                        Sample.channels ->
                  interaction_score q <= interaction_score best)) /\
  Scraper.fetch_top_posts_last_24h Sample.now SampleSession.unauthorized
    Sample.channels 50 = Raise (str "unauthorized") /\
  Scraper.fetch_top_posts_last_24h Sample.now SampleSession.dropped
    Sample.channels 50 = Raise (str "connection reset").
Proof.
  split; [|split].
  - exact (scraper_selection Sample.now SampleSession.session Sample.channels 50
             ltac:(vm_compute; reflexivity)).
  - exact (scraper_selection Sample.now SampleSession.unauthorized
             Sample.channels 50 ltac:(vm_compute; reflexivity)).
  - exact (scraper_selection Sample.now SampleSession.dropped
             Sample.channels 50 ltac:(vm_compute; reflexivity)).
Defined.

End ScraperMoreFacts.

(** ** [utils.py]: escaping and validation *)

Module UtilsMoreFacts.
Import Utils UtilsFacts.

(** The characters that open or close markup or an attribute value. *)
Lemma escape_free (s : pystr) :
  Forall (fun c => c <> 60%N /\ c <> 62%N /\ c <> 34%N /\ c <> 39%N) (PyStr.escape s).
Proof.
  induction s as [|c s IH]; [constructor|].
  rewrite escape_cons. apply Forall_app. split; [|exact IH].
  destruct (N.eqb_spec c 38); [by repeat constructor|].
  destruct (N.eqb_spec c 60); [by repeat constructor|].
  destruct (N.eqb_spec c 62); [by repeat constructor|].
  destruct (N.eqb_spec c 34); [by repeat constructor|].
  destruct (N.eqb_spec c 39); [by repeat constructor|].
  by repeat constructor.
Qed.

(** X10. Whatever the text of a post, the part of its caption in front of
    the footer contains no angle bracket and no quote character: the text
    cannot open a tag in the message that is sent with [parse_mode="html"];
    the only markup of a caption is the footer's blockquote. *)
Theorem caption_markup_free (post : gmap string pyval) (caption : pystr) :
  format_post_caption post = Ok caption ->
  exists body,
    caption = body ++ footer /\
    Forall (fun c => c <> 60%N /\ c <> 62%N /\ c <> 34%N /\ c <> 39%N) body.
Proof.
  unfold format_post_caption.
  destruct (default (PStr []) (post !! "text"%string)) as [| | |text];
    try discriminate.
  destruct (PyStr.strip (PyStr.escape text)) as [|c r]; intros [= <-].
  - exists placeholder. split; [done|]. by vm_compute; repeat constructor.
  - exists (PyStr.escape text). split; [done | apply escape_free].
Qed.

Lemma caption_markup_free_witness :
  exists body,
    str "&lt;b&gt;hi&lt;/b&gt;" ++ footer = body ++ footer /\
    Forall (fun c => c <> 60%N /\ c <> 62%N /\ c <> 34%N /\ c <> 39%N) body.
Proof.
  apply (caption_markup_free (<["text"%string := PStr (str "<b>hi</b>")]> ∅)).
  reflexivity.
Defined.

(** X11. Escaping works character by character: the escaped form of a
    concatenation is the concatenation of the escaped forms, and each
    character becomes its entity or stays itself, although the source
    replaces the five characters in five successive passes. *)
Theorem escape_app (s1 s2 : pystr) :
  PyStr.escape (s1 ++ s2) = PyStr.escape s1 ++ PyStr.escape s2 /\
  PyStr.escape s1 =
    flat_map (fun c =>
      if (c =? 38)%N then str "&amp;"
      else if (c =? 60)%N then str "&lt;"
      else if (c =? 62)%N then str "&gt;"
      else if (c =? 34)%N then str "&quot;"
      else if (c =? 39)%N then str "&#x27;"
      else [c]) s1.
Proof.
  split; [|apply escape_flat_map].
  induction s1 as [|c s1 IH]; [done|].
  change ((c :: s1) ++ s2) with (c :: (s1 ++ s2)).
  by rewrite !escape_cons, IH, app_assoc.
Qed.

Lemma validate_lookup (post : gmap string pyval) (k : string) :
  validate_post_data post = true -> k ∈ required_fields -> is_Some (post !! k).
Proof.
  unfold validate_post_data. intros Hv Hk.
  apply list_elem_of_In in Hk.
  pose proof (proj1 (forallb_forall _ _) Hv k Hk) as H.
  by apply bool_decide_eq_true in H.
Qed.

Lemma validate_intro (post : gmap string pyval) :
  (forall k, k ∈ required_fields -> is_Some (post !! k)) ->
  validate_post_data post = true.
Proof.
  intros H. unfold validate_post_data. apply forallb_forall.
  intros k Hk. apply bool_decide_eq_true, H. by apply list_elem_of_In.
Qed.

(** X12. Validity depends on the keys only: setting any key of a valid post
    to any value leaves it valid, and deleting one of the six required keys
    makes any post invalid. *)
Theorem validate_insert_delete (post : gmap string pyval) (k : string)
    (v : pyval) :
  (validate_post_data post = true ->
   validate_post_data (<[k := v]> post) = true) /\
  (k ∈ required_fields -> validate_post_data (delete k post) = false).
Proof.
  split.
  - intros Hv. apply validate_intro. intros f Hf.
    destruct (decide (k = f)) as [->|Hne].
    + rewrite lookup_insert_eq. by eexists.
    + rewrite lookup_insert_ne by done. by apply validate_lookup.
  - intros Hk. apply not_true_is_false. intros Hv.
    pose proof (validate_lookup _ k Hv Hk) as [x Hx].
    by rewrite lookup_delete_eq in Hx.
Qed.

Lemma validate_insert_delete_witness :
  validate_post_data
    (<["text"%string := PNone]>
       (post_to_dict (fun _ => []) (make_post (str "news") (Sample.msg 1 1 5 0))))
  = true /\
  validate_post_data
    (delete "text"%string
       (post_to_dict (fun _ => []) (make_post (str "news") (Sample.msg 1 1 5 0))))
  = false.
Proof.
  pose proof (validate_insert_delete
    (post_to_dict (fun _ => []) (make_post (str "news") (Sample.msg 1 1 5 0)))
    "text"%string PNone) as [Hi Hd].
  split; [apply Hi; by vm_compute | apply Hd; vm_compute].
  do 2 right. left.
Defined.

End UtilsMoreFacts.

(** ** [main.py]: publishing *)

Module PublisherFacts.
Import Utils UtilsFacts UtilsMoreFacts Publisher.

Lemma required_channel : "channel"%string ∈ required_fields.
Proof. left. Qed.

Lemma required_id : "id"%string ∈ required_fields.
Proof. right. left. Qed.

Lemma required_has_media : "has_media"%string ∈ required_fields.
Proof. do 5 right. left. Qed.

Lemma send_failed_keys line post st e c i :
  post !! "channel"%string = Some c -> post !! "id"%string = Some i ->
  send_failed line post st e = (say st (line c i e), Ok false).
Proof. intros Hc Hi. unfold send_failed, subscript. by rewrite Hc, Hi. Qed.

Lemma send_done_keys line failed post st c i :
  post !! "channel"%string = Some c -> post !! "id"%string = Some i ->
  send_done line failed post st = (say st (line c i), Ok true).
Proof. intros Hc Hi. unfold send_done, subscript. by rewrite Hc, Hi. Qed.

Lemma send_text_post_spec client st post c i :
  post !! "channel"%string = Some c -> post !! "id"%string = Some i ->
  send_outcome (fun caption s => s = SentMessage caption) post st
    (send_text_post client st post).
Proof.
  intros Hc Hi. unfold send_text_post, send_outcome.
  destruct (format_post_caption post) as [message|e].
  - destruct (send_message client (outbox st) message) as [e|].
    + rewrite (send_failed_keys _ _ _ _ c i Hc Hi). simpl. tauto.
    + rewrite (send_done_keys _ _ _ _ c i Hc Hi). simpl.
      repeat split. right. split; [done|]. by exists message, (SentMessage message).
  - rewrite (send_failed_keys _ _ _ _ c i Hc Hi). simpl. tauto.
Qed.

Lemma send_post_with_media_spec client st post c i :
  post !! "channel"%string = Some c -> post !! "id"%string = Some i ->
  send_outcome (fun caption s => exists file, s = SentFile file caption) post st
    (send_post_with_media client st post).
Proof.
  intros Hc Hi. unfold send_post_with_media, send_outcome, subscript.
  rewrite Hc, Hi.
  destruct (get_messages client (outbox st) c i) as [[original_msg|]|e].
  - destruct (format_post_caption post) as [caption|e].
    + destruct (send_file client (outbox st) (msg_media original_msg) caption) as [e|].
      * rewrite (send_failed_keys _ _ _ _ c i Hc Hi). simpl. tauto.
      * rewrite (send_done_keys _ _ _ _ c i Hc Hi). simpl.
        repeat split. right. split; [done|].
        exists caption, (SentFile (msg_media original_msg) caption).
        split; [done|]. split; [by eexists | done].
    + rewrite (send_failed_keys _ _ _ _ c i Hc Hi). simpl. tauto.
  - simpl. tauto.
  - rewrite (send_failed_keys _ _ _ _ c i Hc Hi). simpl. tauto.
Qed.

(** One round of the loop: no exception leaves it, and either the post is
    counted as failed and nothing is sent, or it is counted as successful
    and the one message sent is the one that publishes it. *)
Lemma publish_post_spec client st post :
  exists st',
    publish_post client st post = (st', None) /\
    ((outbox st' = outbox st /\
      successful_sends st' = successful_sends st /\
      failed_sends st' = failed_sends st + 1) \/
     (exists s, outbox st' = outbox st ++ [s] /\ sent_for s post /\
        successful_sends st' = successful_sends st + 1 /\
        failed_sends st' = failed_sends st)).
Proof.
  unfold publish_post.
  destruct (validate_post_data post) eqn:Hv; simpl.
  2:{ eexists. split; [reflexivity|]. left. simpl. done. }
  destruct (validate_lookup post _ Hv required_channel) as [c Hc].
  destruct (validate_lookup post _ Hv required_id) as [i Hi].
  destruct (validate_lookup post _ Hv required_has_media) as [media Hm].
  unfold subscript at 1. rewrite Hm.
  assert (Hsend :
    exists r, (if truthy media then send_post_with_media client st post
               else send_text_post client st post) = r /\
      send_outcome (fun caption s =>
        if truthy media then exists file, s = SentFile file caption
        else s = SentMessage caption) post st r).
  { destruct (truthy media); eexists; (split; [reflexivity|]).
    - by apply (send_post_with_media_spec _ _ _ c i).
    - by apply (send_text_post_spec _ _ _ c i). }
  destruct Hsend as ([st1 success] & -> & Hs & Hf & Hout). simpl in *.
  destruct Hout as [[-> Hsame] | [-> (caption & s & Hcap & Hkind & Hout)]].
  - eexists. split; [reflexivity|]. left. simpl. by rewrite Hs, Hf.
  - eexists. split; [reflexivity|]. right. exists s. simpl.
    rewrite Hs, Hf. repeat split; try done.
    exists media, caption. repeat split; done.
Qed.

Lemma publish_spec client posts : forall st,
  exists st' new delivered,
    publish client st posts = (st', None) /\
    outbox st' = outbox st ++ new /\
    delivered `sublist_of` posts /\
    Forall2 sent_for new delivered /\
    successful_sends st' = successful_sends st + len new /\
    failed_sends st' = failed_sends st + (len posts - len new).
Proof.
  induction posts as [|post posts IH]; intros st; simpl.
  - exists st, [], []. rewrite app_nil_r. repeat split; try done; unfold len; simpl; lia.
  - destruct (publish_post_spec client st post) as (st1 & -> & Hstep).
    destruct (IH st1) as (st' & new & delivered & -> & Hout & Hsub & Hall & Hs & Hf).
    destruct Hstep as [(Ho & Hs1 & Hf1) | (s & Ho & Hsent & Hs1 & Hf1)].
    + exists st', new, delivered. rewrite Hout, Ho, Hs, Hf, Hs1, Hf1.
      repeat split; try done; [by apply sublist_cons|].
      unfold len in *. simpl. lia.
    + exists st', (s :: new), (post :: delivered).
      rewrite Hout, Ho, Hs, Hf, Hs1, Hf1, <- app_assoc.
      repeat split; try done; [by apply sublist_skip | by constructor | |];
        unfold len in *; simpl; lia.
Qed.

(** X13. The loop over the posts never lets an exception out, whatever the
    posts hold and whatever the client does, and it counts every post
    exactly once, as sent or as failed. *)
Theorem publish_counts (client : destination) (st : state)
    (posts : list (gmap string pyval)) :
  exists st',
    publish client st posts = (st', None) /\
    successful_sends st <= successful_sends st' /\
    failed_sends st <= failed_sends st' /\
    (successful_sends st' - successful_sends st)
    + (failed_sends st' - failed_sends st) = len posts.
Proof.
  destruct (publish_spec client posts st)
    as (st' & new & delivered & Hp & Hout & Hsub & Hall & Hs & Hf).
  exists st'. split; [exact Hp|].
  assert (len new <= len posts).
  { apply Forall2_length in Hall. apply sublist_length in Hsub.
    unfold len. lia. }
  assert (0 <= len new) by (unfold len; lia). lia.
Qed.

(** X14. The messages a run of the loop sends are, in order, the messages
    that publish some of the posts, taken in the order of the list: one
    send per post counted as successful, none for any other post, and each
    carrying the caption of its post, by [send_file] for a post with media
    and by [send_message] otherwise. An invalid post and a post without a
    caption are never sent. *)
Theorem publish_outbox (client : destination) (st : state)
    (posts : list (gmap string pyval)) :
  exists st' new delivered,
    publish client st posts = (st', None) /\
    outbox st' = outbox st ++ new /\
    delivered `sublist_of` posts /\
    Forall2 sent_for new delivered /\
    successful_sends st' = successful_sends st + len new.
Proof.
  destruct (publish_spec client posts st)
    as (st' & new & delivered & Hp & Hout & Hsub & Hall & Hs & Hf).
  by exists st', new, delivered.
Qed.

(** *** Posts of the pipeline *)

Lemma post_to_dict_caption isoformat p :
  format_post_caption (post_to_dict isoformat p) = Ok (caption_of_post p).
Proof.
  apply caption_of_text. unfold post_to_dict. by simplify_map_eq.
Qed.

Lemma post_to_dict_has_media isoformat p :
  post_to_dict isoformat p !! "has_media"%string = Some (PBool (has_media p)).
Proof. unfold post_to_dict. by simplify_map_eq. Qed.

Lemma sent_for_publishes isoformat s p :
  sent_for s (post_to_dict isoformat p) -> publishes s p.
Proof.
  intros (_ & media & caption & Hm & Hc & Hkind).
  rewrite post_to_dict_has_media in Hm. injection Hm as <-.
  rewrite post_to_dict_caption in Hc. injection Hc as <-.
  unfold publishes. simpl in Hkind. by destruct (has_media p).
Qed.

(** On a reliable destination a post of the pipeline is always sent. *)
Lemma publish_post_reliable client isoformat st p :
  reliable client ->
  exists st' s,
    publish_post client st (post_to_dict isoformat p) = (st', None) /\
    outbox st' = outbox st ++ [s] /\ publishes s p /\
    successful_sends st' = successful_sends st + 1 /\
    failed_sends st' = failed_sends st.
Proof.
  intros (Hget & Hfile & Hmsg).
  unfold publish_post. rewrite pipeline_post_valid. simpl.
  unfold subscript at 1. rewrite post_to_dict_has_media. simpl.
  assert (Hc : exists c, post_to_dict isoformat p !! "channel"%string = Some c)
    by (unfold post_to_dict; eexists; by simplify_map_eq).
  assert (Hi : exists i, post_to_dict isoformat p !! "id"%string = Some i)
    by (unfold post_to_dict; eexists; by simplify_map_eq).
  destruct Hc as [c Hc], Hi as [i Hi].
  unfold publishes. destruct (has_media p).
  - unfold send_post_with_media, subscript. rewrite Hc, Hi.
    destruct (Hget (outbox st) c i) as [original_msg ->].
    rewrite post_to_dict_caption, Hfile.
    rewrite (send_done_keys _ _ _ _ c i Hc Hi). simpl.
    eexists _, _. split; [reflexivity|]. simpl. repeat split. by eexists.
  - unfold send_text_post. rewrite post_to_dict_caption, Hmsg.
    rewrite (send_done_keys _ _ _ _ c i Hc Hi). simpl.
    eexists _, _. split; [reflexivity|]. simpl. by repeat split.
Qed.

Lemma publish_reliable client isoformat ps : forall st,
  reliable client ->
  exists st' new,
    publish client st (map (post_to_dict isoformat) ps) = (st', None) /\
    outbox st' = outbox st ++ new /\
    Forall2 publishes new ps /\
    successful_sends st' = successful_sends st + len ps /\
    failed_sends st' = failed_sends st.
Proof.
  induction ps as [|p ps IH]; intros st Hr; simpl.
  - exists st, []. rewrite app_nil_r. repeat split; try done. unfold len. simpl. lia.
  - destruct (publish_post_reliable client isoformat st p Hr)
      as (st1 & s & -> & Ho & Hpub & Hs1 & Hf1).
    destruct (IH st1 Hr) as (st' & new & -> & Hout & Hall & Hs & Hf).
    exists st', (s :: new). rewrite Hout, Ho, Hs, Hf, Hs1, Hf1, <- app_assoc.
    repeat split; try done; [by constructor|]. unfold len. simpl. lia.
Qed.

Lemma publishes_caption s p : publishes s p -> sent_caption s = caption_of_post p.
Proof.
  unfold publishes. destruct (has_media p); [intros [file ->] | intros ->]; done.
Qed.

Lemma publishes_captions new ps :
  Forall2 publishes new ps -> map sent_caption new = map caption_of_post ps.
Proof.
  induction 1 as [|s p new ps Hsp _ IH]; [done|].
  simpl. by rewrite (publishes_caption _ _ Hsp), IH.
Qed.

(** X15. On a destination where every call succeeds, the loop sends the
    posts of the pipeline one for one and in their order, each with its
    caption and by the call that fits it, counts them all as successful and
    none as failed. *)
Theorem publish_all (client : destination) (isoformat : Z -> pystr)
    (st : state) (ps : list post) :
  reliable client ->
  exists st' new,
    publish client st (map (post_to_dict isoformat) ps) = (st', None) /\
    outbox st' = outbox st ++ new /\
    Forall2 publishes new ps /\
    map sent_caption new = map caption_of_post ps /\
    successful_sends st' = successful_sends st + len ps /\
    failed_sends st' = failed_sends st.
Proof.
  intros Hr.
  destruct (publish_reliable client isoformat ps st Hr)
    as (st' & new & Hp & Hout & Hall & Hs & Hf).
  exists st', new. repeat split; try done. by apply publishes_captions.
Qed.

Lemma publish_all_witness :
  exists st' new,
    publish SampleWorld.target (State [] [] 0 0)
      (map (post_to_dict (fun _ => []))
         (Main.returned (Main.fetch_top_posts_with_client Sample.now Sample.good_disk
                           Sample.client Sample.channels 50)))
    = (st', None) /\
    outbox st' = outbox (State [] [] 0 0) ++ new /\
    Forall2 publishes new
      (Main.returned (Main.fetch_top_posts_with_client Sample.now Sample.good_disk
                        Sample.client Sample.channels 50)) /\
    map sent_caption new
    = map caption_of_post
        (Main.returned (Main.fetch_top_posts_with_client Sample.now Sample.good_disk
                          Sample.client Sample.channels 50)) /\
    successful_sends st'
    = successful_sends (State [] [] 0 0)
      + len (Main.returned (Main.fetch_top_posts_with_client Sample.now
                              Sample.good_disk Sample.client Sample.channels 50)) /\
    failed_sends st' = failed_sends (State [] [] 0 0).
Proof.
  apply (publish_all SampleWorld.target (fun _ => []) (State [] [] 0 0)).
  unfold reliable. simpl. repeat split; intros; by eexists.
Defined.

(** *** [main] *)

Lemma finally_spec w client r st :
  raised (finally w client r st) = r /\
  outbox (final (finally w client r st)) = outbox st /\
  successful_sends (final (finally w client r st)) = successful_sends st /\
  failed_sends (final (finally w client r st)) = failed_sends st /\
  disconnect_called (finally w client r st) = client && is_connected w.
Proof.
  unfold finally. destruct (client && is_connected w); [|done].
  by destruct (disconnect w).
Qed.

(** X16. Once the client has started, [main] returns without an exception,
    whatever the fetch, the snapshot, the sends and the disconnect do; every
    selected post is counted exactly once, as sent or as failed; and the
    client is disconnected if it reports to be connected. *)
Theorem main_returns (w : world) :
  connect w = Started ->
  raised (main w) = None /\
  successful_sends (final (main w)) + failed_sends (final (main w))
  = len (selection w) /\
  disconnect_called (main w) = is_connected w.
Proof.
  intros Hc. unfold main, selection. rewrite Hc.
  set (fetched := Main.fetch_top_posts_with_client _ _ _ _ _).
  destruct (Main.returned fetched) as [|p ps] eqn:Hr.
  - match goal with |- context [finally ?a ?b ?c ?d] =>
      destruct (finally_spec a b c d) as (Hr1 & _ & Hs1 & Hf1 & Hd1) end.
    rewrite Hr1, Hs1, Hf1, Hd1. by repeat split.
  - match goal with |- context [publish ?c ?st0 ?l] =>
      destruct (publish_spec c l st0)
        as (st' & new & delivered & -> & Hout & Hsub & Hall & Hs & Hf)
    end.
    match goal with |- context [finally ?a ?b ?c ?d] =>
      destruct (finally_spec a b c d) as (Hr1 & _ & Hs1 & Hf1 & Hd1) end.
    rewrite Hr1, Hs1, Hf1, Hd1.
    split; [done|]. split; [|done]. simpl in *.
    rewrite Hs, Hf. unfold len. simpl. rewrite length_map. lia.
Qed.

Lemma main_returns_witness :
  raised (main SampleWorld.world) = None /\
  successful_sends (final (main SampleWorld.world))
  + failed_sends (final (main SampleWorld.world))
  = len (selection SampleWorld.world) /\
  disconnect_called (main SampleWorld.world) = is_connected SampleWorld.world.
Proof. apply (main_returns SampleWorld.world). reflexivity. Defined.

(** X17. When the client cannot be created or started, or when the fetch
    selects no post, [main] sends nothing and counts nothing; in the first
    case it raises the exception of the start, in the second it returns
    normally. *)
Theorem main_sends_nothing (w : world) :
  connect w <> Started \/ selection w = [] ->
  outbox (final (main w)) = [] /\
  successful_sends (final (main w)) = 0 /\
  failed_sends (final (main w)) = 0 /\
  raised (main w) =
    match connect w with
    | ConstructRaises e => Some e
    | StartRaises e => Some e
    | Started => None
    end.
Proof.
  intros Hcase. unfold main, selection in *.
  destruct (connect w) as [e|e|] eqn:Hc.
  - match goal with |- context [finally ?a ?b ?c ?d] =>
      destruct (finally_spec a b c d) as (Hr1 & Ho1 & Hs1 & Hf1 & _) end.
    by rewrite Hr1, Ho1, Hs1, Hf1.
  - match goal with |- context [finally ?a ?b ?c ?d] =>
      destruct (finally_spec a b c d) as (Hr1 & Ho1 & Hs1 & Hf1 & _) end.
    by rewrite Hr1, Ho1, Hs1, Hf1.
  - destruct Hcase as [Hn|Hsel]; [done|]. rewrite Hsel.
    match goal with |- context [finally ?a ?b ?c ?d] =>
      destruct (finally_spec a b c d) as (Hr1 & Ho1 & Hs1 & Hf1 & _) end.
    by rewrite Hr1, Ho1, Hs1, Hf1.
Qed.

Lemma main_sends_nothing_witness :
  outbox (final (main SampleWorld.offline)) = [] /\
  successful_sends (final (main SampleWorld.offline)) = 0 /\
  failed_sends (final (main SampleWorld.offline)) = 0 /\
  raised (main SampleWorld.offline) = Some (str "unauthorized").
Proof.
  apply (main_sends_nothing SampleWorld.offline). left. discriminate.
Defined.

(** X18. End to end: when the client starts and every call to the
    destination succeeds, [main] sends exactly the posts that
    [fetch_top_posts_with_client] returned, one message per post and in the
    returned order (highest score first), each with its caption; all are
    counted as successful. *)
Theorem main_publishes_selection (w : world) :
  connect w = Started ->
  reliable (target w) ->
  Forall2 publishes (outbox (final (main w))) (selection w) /\
  map sent_caption (outbox (final (main w))) = map caption_of_post (selection w) /\
  successful_sends (final (main w)) = len (selection w) /\
  failed_sends (final (main w)) = 0 /\
  raised (main w) = None.
Proof.
  intros Hc Hrel. unfold main, selection. rewrite Hc.
  set (fetched := Main.fetch_top_posts_with_client _ _ _ _ _).
  destruct (Main.returned fetched) as [|p ps] eqn:Hr.
  - match goal with |- context [finally ?a ?b ?c ?d] =>
      destruct (finally_spec a b c d) as (Hr1 & Ho1 & Hs1 & Hf1 & _) end.
    rewrite Hr1, Ho1, Hs1, Hf1. simpl. repeat split. constructor.
  - match goal with |- context [publish ?c ?st0 (map ?f ?l)] =>
      destruct (publish_reliable c (isoformat w) l st0 Hrel)
        as (st' & new & -> & Hout & Hall & Hs & Hf)
    end.
    match goal with |- context [finally ?a ?b ?c ?d] =>
      destruct (finally_spec a b c d) as (Hr1 & Ho1 & Hs1 & Hf1 & _) end.
    rewrite Hr1, Ho1, Hs1, Hf1.
    cbn [say outbox successful_sends failed_sends].
    simpl in Hout, Hs, Hf. rewrite Hout, Hs, Hf.
    split; [exact Hall|]. split; [by apply publishes_captions|].
    by repeat split; try lia.
Qed.

Lemma main_publishes_selection_witness :
  Forall2 publishes (outbox (final (main SampleWorld.world)))
    (selection SampleWorld.world) /\
  map sent_caption (outbox (final (main SampleWorld.world)))
  = map caption_of_post (selection SampleWorld.world) /\
  successful_sends (final (main SampleWorld.world)) = len (selection SampleWorld.world) /\
  failed_sends (final (main SampleWorld.world)) = 0 /\
  raised (main SampleWorld.world) = None.
Proof.
  apply (main_publishes_selection SampleWorld.world); [reflexivity|].
  unfold reliable. simpl. repeat split; intros; by eexists.
Defined.

(** On the sample the two posts of [news] go out as text messages, the
    better one first. *)
Example sample_outbox :
  map sent_caption (outbox (final (main SampleWorld.world)))
  = [str "post" ++ footer; str "post" ++ footer] /\
  successful_sends (final (main SampleWorld.world)) = 2.
Proof. split; vm_compute; reflexivity. Qed.

End PublisherFacts.

(** ** [config.py]: the list of channels *)

Module ConfigFacts.
Import Config UtilsFacts.

Lemma split_comma_cons (s : pystr) : exists piece pieces, split_comma s = piece :: pieces.
Proof.
  induction s as [|c s (piece & pieces & IH)]; simpl; [by eexists _, _|].
  destruct (c =? 44)%N; [by eexists _, _|]. rewrite IH. by eexists _, _.
Qed.

Lemma split_comma_free (s : pystr) : Forall (fun piece => 44%N ∉ piece) (split_comma s).
Proof.
  induction s as [|c s IH]; simpl.
  - constructor; [apply not_elem_of_nil | constructor].
  - destruct (N.eqb_spec c 44) as [->|Hne].
    + constructor; [apply not_elem_of_nil | exact IH].
    + destruct (split_comma s) as [|piece pieces].
      * constructor; [|constructor]. intros H.
        apply list_elem_of_singleton in H. by subst.
      * apply Forall_cons in IH as [Hp Hps]. constructor; [|exact Hps].
        intros H. apply elem_of_cons in H as [H|H]; [by subst | done].
Qed.

Lemma split_comma_plain (name : pystr) : 44%N ∉ name -> split_comma name = [name].
Proof.
  induction name as [|c name IH]; intros Hfree; simpl; [done|].
  destruct (N.eqb_spec c 44) as [->|Hne]; [exfalso; apply Hfree; left|].
  rewrite IH; [done|]. intros H. apply Hfree. by right.
Qed.

Lemma split_comma_app (name rest : pystr) :
  44%N ∉ name -> split_comma (name ++ 44%N :: rest) = name :: split_comma rest.
Proof.
  induction name as [|c name IH]; intros Hfree; simpl; [done|].
  destruct (N.eqb_spec c 44) as [->|Hne]; [exfalso; apply Hfree; left|].
  rewrite IH; [done|]. intros H. apply Hfree. by right.
Qed.

Lemma split_join (names : list pystr) :
  names <> [] -> Forall (fun name => 44%N ∉ name) names ->
  split_comma (join_comma names) = names.
Proof.
  induction names as [|name names IH]; intros Hne Hall; [done|].
  apply Forall_cons in Hall as [Hname Hall].
  destruct names as [|name' names].
  - simpl. by apply split_comma_plain.
  - change (join_comma (name :: name' :: names))
      with (name ++ 44%N :: join_comma (name' :: names)).
    rewrite split_comma_app by done. f_equal. by apply IH.
Qed.

Lemma lstrip_elem (s : pystr) (c : N) : c ∈ PyStr.lstrip s -> c ∈ s.
Proof.
  induction s as [|x s IH]; simpl; [done|].
  destruct (PyStr.isspace x); [|done]. intros H. right. by apply IH.
Qed.

Lemma strip_elem (s : pystr) (c : N) : c ∈ PyStr.strip s -> c ∈ s.
Proof.
  unfold PyStr.strip, PyStr.rstrip. intros H.
  apply (proj1 (elem_of_reverse _ _)) in H. apply lstrip_elem in H.
  apply (proj1 (elem_of_reverse _ _)) in H. by apply lstrip_elem.
Qed.

Lemma lstrip_fix (t : pystr) :
  match t with [] => True | c :: _ => PyStr.isspace c = false end ->
  PyStr.lstrip t = t.
Proof. destruct t as [|c t]; simpl; [done|]. by intros ->. Qed.

Lemma lstrip_split (s : pystr) : exists pre, s = pre ++ PyStr.lstrip s.
Proof.
  induction s as [|c s [pre IH]]; simpl; [by exists []|].
  destruct (PyStr.isspace c); [|by exists []].
  exists (c :: pre). simpl. by f_equal.
Qed.

Lemma rstrip_head (t : pystr) :
  match t with [] => True | c :: _ => PyStr.isspace c = false end ->
  match PyStr.rstrip t with [] => True | c :: _ => PyStr.isspace c = false end.
Proof.
  intros Ht. unfold PyStr.rstrip.
  destruct (lstrip_split (reverse t)) as [pre Hpre].
  apply (f_equal reverse) in Hpre.
  rewrite reverse_involutive, reverse_app in Hpre.
  destruct (reverse (PyStr.lstrip (reverse t))) as [|x r]; [done|].
  rewrite Hpre in Ht. exact Ht.
Qed.

Lemma strip_idem (s : pystr) : PyStr.strip (PyStr.strip s) = PyStr.strip s.
Proof.
  unfold PyStr.strip.
  rewrite (lstrip_fix (PyStr.rstrip (PyStr.lstrip s)))
    by apply rstrip_head, lstrip_head.
  unfold PyStr.rstrip. rewrite reverse_involutive.
  by rewrite (lstrip_fix (PyStr.lstrip _)) by apply lstrip_head.
Qed.

(** X19. Every channel name that the configuration yields is usable as it
    stands: it is not empty, has no whitespace at either end, and contains
    no comma. Empty and blank pieces of the variable are dropped. *)
Theorem parse_channels_plain (CHANNELS_STR : pystr) :
  Forall plain_name (parse_channels CHANNELS_STR).
Proof.
  apply Forall_forall. intros name Hname.
  unfold parse_channels in Hname.
  apply list_elem_of_omap in Hname as (piece & Hpiece & Hstrip).
  pose proof (split_comma_free CHANNELS_STR) as Hfree.
  rewrite Forall_forall in Hfree. specialize (Hfree piece Hpiece).
  destruct (PyStr.strip piece) as [|c r] eqn:Es; [discriminate|].
  injection Hstrip as <-. rewrite <- Es. repeat split.
  - by rewrite Es.
  - apply strip_idem.
  - intros H. apply Hfree. by apply strip_elem.
Qed.

(** X20. Round trip: writing plain names separated by commas and parsing
    the result gives the names back, in order and as often as they were
    written; nothing is merged, dropped or reordered. *)
Theorem parse_join (names : list pystr) :
  Forall plain_name names -> parse_channels (join_comma names) = names.
Proof.
  intros Hall. destruct names as [|name names]; [by vm_compute|].
  unfold parse_channels. rewrite split_join.
  - induction Hall as [|n ns (Hne & Hs & _) _ IH]; [done|].
    cbn [omap list_omap]. rewrite Hs. destruct n; [done|]. by rewrite IH.
  - done.
  - eapply Forall_impl; [exact Hall|]. by intros n (_ & _ & H).
Qed.

Lemma parse_join_witness :
  parse_channels (join_comma [str "news"; str "quiet"]) = [str "news"; str "quiet"].
Proof.
  apply (parse_join [str "news"; str "quiet"]).
  repeat constructor; try discriminate; vm_compute;
    intros H; repeat (apply elem_of_cons in H as [H|H]; [discriminate H|]);
    by apply elem_of_nil in H.
Defined.

(** Blanks around the names and empty pieces do not matter. *)
Example parse_channels_blanks :
  parse_channels (str " news , ,quiet,") = [str "news"; str "quiet"] /\
  CHANNELS ∅ = [str "gizmiztel"].
Proof. split; by vm_compute. Qed.

End ConfigFacts.

(** ** [get_group_id.py]: the groups found *)

Module GroupIdFacts.
Import GroupId.

Lemma group_dict_set_keys (k : Z) (v : group) (d : list (Z * group)) :
  map fst (dict_set k v d) =
  if decide (k ∈ map fst d) then map fst d else map fst d ++ [k].
Proof.
  induction d as [|[k' v'] d IH]; simpl.
  - destruct (decide (k ∈ [])) as [H|_]; [by apply elem_of_nil in H | done].
  - destruct (decide (k' = k)) as [->|Hne]; simpl.
    + destruct (decide (k ∈ k :: map fst d)) as [|Hn]; [done|]. exfalso. apply Hn. left.
    + rewrite IH. destruct (decide (k ∈ map fst d)) as [Hin|Hnin].
      * destruct (decide (k ∈ k' :: map fst d)) as [|Hn]; [done|].
        exfalso. apply Hn. by right.
      * destruct (decide (k ∈ k' :: map fst d)) as [Hin|_]; [|done].
        apply elem_of_cons in Hin as [->|Hin]; done.
Qed.

Lemma group_dict_set_NoDup (k : Z) (v : group) (d : list (Z * group)) :
  NoDup (map fst d) -> NoDup (map fst (dict_set k v d)).
Proof.
  intros Hnd. rewrite group_dict_set_keys. destruct (decide (k ∈ map fst d)); [done|].
  apply NoDup_app. split; [done|]. split; [|apply NoDup_singleton].
  intros x Hx Hx'. apply list_elem_of_singleton in Hx'. by subst.
Qed.

Lemma group_dict_set_elem (k : Z) (v : group) (d : list (Z * group)) k' g :
  NoDup (map fst d) ->
  (k', g) ∈ dict_set k v d <->
  (k' = k /\ g = v) \/ (k' <> k /\ (k', g) ∈ d).
Proof.
  induction d as [|[k0 v0] d IH]; simpl; intros Hnd.
  - rewrite list_elem_of_singleton. split.
    + intros [= -> ->]. by left.
    + intros [[-> ->]|[_ H]]; [done | by apply elem_of_nil in H].
  - apply NoDup_cons in Hnd as [Hk0 Hnd].
    destruct (decide (k0 = k)) as [->|Hne].
    + rewrite !elem_of_cons. split.
      * intros [[= -> ->]|Hin]; [by left|]. right. split; [|by right].
        intros ->. apply Hk0. apply list_elem_of_fmap. by exists (k, g).
      * intros [[-> ->]|[Hn [[= -> ->]|Hin]]]; [by left | done | by right].
    + rewrite !elem_of_cons, (IH Hnd). split.
      * intros [[= -> ->]|[[-> ->]|[Hn Hin]]]; [right; split; [done | by left]
                                               | by left | right; split; [done | by right]].
      * intros [[-> ->]|[Hn [[= -> ->]|Hin]]];
          [right; by left | by left | right; right; done].
Qed.

(** The group entry made from a chat. *)
Lemma note_update_group_chat d u :
  note_update d u =
  match group_chat u with
  | Some c => dict_set (chat_id c)
                {| title := chat_title c; type := chat_type c; id := chat_id c |} d
  | None => d
  end.
Proof.
  unfold note_update, group_chat.
  destruct (update_message u) as [[c|]|]; [|done|done]. by destruct (is_group c).
Qed.

Lemma groups_found_spec (updates : list update) :
  NoDup (map fst (groups_found updates)) /\
  forall k g,
    (k, g) ∈ groups_found updates <->
    exists c,
      last (filter (fun c => chat_id c = k) (omap group_chat updates)) = Some c /\
      g = {| title := chat_title c; type := chat_type c; id := chat_id c |}.
Proof.
  unfold groups_found. induction updates as [|u updates IH] using rev_ind.
  - simpl. split; [constructor|]. intros k g. split.
    + intros H. by apply elem_of_nil in H.
    + intros (c & Hc & _). discriminate.
  - destruct IH as [Hnd IH]. rewrite fold_left_app. simpl.
    rewrite note_update_group_chat, omap_app. simpl.
    destruct (group_chat u) as [c|] eqn:Hg; simpl.
    + split; [by apply group_dict_set_NoDup|]. intros k g.
      rewrite group_dict_set_elem by done. rewrite filter_app, filter_cons, filter_nil.
      destruct (decide (chat_id c = k)) as [<-|Hne].
      * rewrite last_snoc. split.
        -- intros [[_ ->]|[Hn _]]; [by exists c | done].
        -- intros (c' & [= <-] & ->). by left.
      * rewrite app_nil_r, <- IH. split.
        -- intros [[-> _]|[_ H]]; done.
        -- intros H. right. split; [by intros -> | done].
    + rewrite app_nil_r. by split.
Qed.

Lemma group_chat_is_group u c : group_chat u = Some c -> is_group c = true.
Proof.
  unfold group_chat. destruct (update_message u) as [[c'|]|]; try discriminate.
  destruct (is_group c') eqn:E; [by intros [= <-] | discriminate].
Qed.

(** X21. The loop lists every chat at most once, each under its own id,
    and lists only groups and supergroups: a private chat or a channel in
    the updates never appears. *)
Theorem groups_found_only_groups (updates : list update) :
  NoDup (map fst (groups_found updates)) /\
  forall k g, (k, g) ∈ groups_found updates ->
    id g = k /\ (type g = str "group" \/ type g = str "supergroup").
Proof.
  destruct (groups_found_spec updates) as [Hnd Hspec]. split; [exact Hnd|].
  intros k g Hin. apply Hspec in Hin as (c & Hlast & ->). simpl.
  apply last_Some_elem_of, list_elem_of_filter in Hlast as [Hk Hc].
  apply list_elem_of_omap in Hc as (u & _ & Hu).
  apply group_chat_is_group in Hu. unfold is_group in Hu.
  split; [exact Hk|].
  apply orb_true_iff in Hu as [H|H]; apply bool_decide_eq_true in H; tauto.
Qed.

(** X22. A group is listed exactly when some update carries a message from
    it, and what is listed is the title and type of the last such update:
    a later update of the same chat overwrites the earlier entry. *)
Theorem groups_found_last_wins (updates : list update) (k : Z) (g : group) :
  (k, g) ∈ groups_found updates <->
  exists c,
    last (filter (fun c => chat_id c = k) (omap group_chat updates)) = Some c /\
    g = {| title := chat_title c; type := chat_type c; id := chat_id c |}.
Proof. apply groups_found_spec. Qed.

(** A group that was renamed between two updates is listed once, with the
    new title; the private chat is left out. *)
Example groups_found_sample :
  groups_found
    [Update (Some (Some (Chat (-100) (Some (str "old")) (str "supergroup"))));
     Update (Some (Some (Chat 7 None (str "private"))));
     Update None;
     Update (Some (Some (Chat (-100) (Some (str "new")) (str "supergroup"))))]
  = [(-100, Group (Some (str "new")) (str "supergroup") (-100))].
Proof. by vm_compute. Qed.

End GroupIdFacts.

(** ** Changing the list of channels *)

Module ChannelListFacts.
Import Main MainFacts PipelineFacts.

Lemma channel_keys_NoDup channels : NoDup (channel_keys channels).
Proof. apply add_key_NoDup. constructor. Qed.

Lemma flat_map_perm {A B} (f : A -> list B) (l l' : list A) :
  l ≡ₚ l' -> flat_map f l ≡ₚ flat_map f l'.
Proof.
  induction 1 as [|x l l' _ IH|x y l|l l' l'' _ IH1 _ IH2]; simpl.
  - done.
  - by rewrite IH.
  - rewrite !app_assoc. f_equiv. apply Permutation_app_comm.
  - by rewrite IH1.
Qed.

(** X24. The order in which the channels are listed decides at most the
    order of posts with equal scores: two runs over lists that are
    permutations of each other return the same posts, each as often. *)
Theorem returned_order_independent (current_time : Z) (disk : disk_t)
    (client : client_t) (channels channels' : list pystr) (limit : Z) :
  channels ≡ₚ channels' ->
  returned (fetch_top_posts_with_client current_time disk client channels limit)
  ≡ₚ returned (fetch_top_posts_with_client current_time disk client channels' limit).
Proof.
  intros Hperm. rewrite !returned_perm. apply flat_map_perm.
  apply NoDup_Permutation; [apply channel_keys_NoDup | apply channel_keys_NoDup |].
  intros c. rewrite !channel_keys_elem_of. by rewrite Hperm.
Qed.

Lemma returned_order_independent_witness :
  returned (fetch_top_posts_with_client Sample.now Sample.good_disk Sample.client
              [str "news"; str "digest"] 50)
  ≡ₚ returned (fetch_top_posts_with_client Sample.now Sample.good_disk Sample.client
                 [str "digest"; str "news"] 50).
Proof.
  apply (returned_order_independent Sample.now Sample.good_disk Sample.client
           [str "news"; str "digest"] [str "digest"; str "news"] 50).
  apply Permutation_swap.
Defined.

(** X23. In the scraper too a channel that cannot be fetched is passed
    over: the function returns what it returns for the list without that
    channel. *)
Theorem scraper_failure_isolated (current_time : Z) (telethon : Scraper.session)
    (channels : list pystr) (limit : Z) (name : pystr) (e : pystr) :
  Scraper.answers telethon name limit = FetchRaises e ->
  Scraper.fetch_top_posts_last_24h current_time telethon channels limit
  = Scraper.fetch_top_posts_last_24h current_time telethon
      (filter (fun c => c ≠ name) channels) limit.
Proof.
  intros Hc. unfold Scraper.fetch_top_posts_last_24h.
  rewrite !ScraperFacts.collect_spec.
  rewrite (flat_map_filter_nil _ name channels); [done|].
  unfold recent_posts. by rewrite Hc.
Qed.

Lemma scraper_failure_isolated_witness :
  Scraper.fetch_top_posts_last_24h Sample.now SampleSession.session
    Sample.channels 50
  = Scraper.fetch_top_posts_last_24h Sample.now SampleSession.session
      (filter (fun c => c ≠ str "down") Sample.channels) 50.
Proof.
  apply (scraper_failure_isolated Sample.now SampleSession.session
           Sample.channels 50 (str "down") (str "timeout")).
  reflexivity.
Defined.

End ChannelListFacts.

(** ** [telegram_scraper.py] against [main.py] *)

Module SelectionFacts.
Import Main MainFacts PipelineFacts ScraperFacts.

Lemma flat_map_ext_elem {A B} (f g : A -> list B) (l : list A) :
  (forall x, x ∈ l -> f x = g x) -> flat_map f l = flat_map g l.
Proof.
  induction l as [|x l IH]; intros H; simpl; [done|].
  rewrite (H x) by left. rewrite IH; [done|]. intros y Hy. apply H. by right.
Qed.

Lemma flat_map_length_elem {A B} (f : A -> list B) (l : list A) (x : A) :
  x ∈ l -> (length (f x) <= length (flat_map f l))%nat.
Proof.
  induction l as [|y l IH]; intros Hx; simpl.
  - by apply elem_of_nil in Hx.
  - rewrite length_app. apply elem_of_cons in Hx as [->|Hx]; [lia|].
    specialize (IH Hx). lia.
Qed.

(** A list in which [name] stands at most once and no other element
    contributes: only [name] contributes. *)
Lemma flat_map_single {B} (h : pystr -> list B) (name : pystr) (l : list pystr) :
  (forall c, c ∈ l -> c <> name -> h c = []) ->
  (length (filter (fun c => c = name) l) <= 1)%nat ->
  flat_map h l = if decide (name ∈ l) then h name else [].
Proof.
  induction l as [|c l IH]; intros Hothers Hone; simpl.
  - destruct (decide (name ∈ [])) as [Hin|_]; [by apply elem_of_nil in Hin | done].
  - rewrite filter_cons in Hone. destruct (decide (c = name)) as [->|Hne].
    + simpl in Hone.
      assert (Hnot : name ∉ l).
      { intros Hin.
        assert (Hf : name ∈ filter (fun c => c = name) l)
          by (by apply list_elem_of_filter).
        destruct (filter (fun c => c = name) l); [by apply elem_of_nil in Hf|].
        simpl in Hone. lia. }
      rewrite (flat_map_nil h l), app_nil_r.
      * destruct (decide (name ∈ name :: l)) as [_|Hn]; [done|].
        exfalso. apply Hn. left.
      * intros x Hx. apply Hothers; [by right|]. by intros ->.
    + rewrite (Hothers c) by (done || left). simpl.
      rewrite IH by (done || (intros x Hx; apply Hothers; by right)).
      destruct (decide (name ∈ l)) as [Hin|Hin],
               (decide (name ∈ c :: l)) as [Hin'|Hin']; try done.
      * exfalso. apply Hin'. by right.
      * apply elem_of_cons in Hin' as [->|Hin']; done.
Qed.

Lemma NoDup_filter_eq (name : pystr) (l : list pystr) :
  NoDup l -> (length (filter (fun c => c = name) l) <= 1)%nat.
Proof.
  induction 1 as [|c l Hc _ IH]; [simpl; lia|].
  rewrite filter_cons. destruct (decide (c = name)) as [->|_]; [|exact IH].
  assert (Hnil : filter (fun c => c = name) l = []).
  { destruct (filter (fun c => c = name) l) as [|x f] eqn:Hf; [done|].
    assert (Hx : x ∈ filter (fun c => c = name) l) by (rewrite Hf; left).
    apply list_elem_of_filter in Hx as [-> Hx]. done. }
  rewrite Hnil. simpl. lia.
Qed.

(** What [main.py] keeps of a channel: the best
    [spec_selected_count n] of its [n] recent posts. *)
Lemma channel_entry_posts client limit cutoff channel :
  len (recent_posts client limit cutoff channel) < 2 ^ 53 ->
  posts (channel_entry client limit cutoff channel) =
  take (Z.to_nat (spec_selected_count
                    (len (recent_posts client limit cutoff channel))))
    (sort_desc interaction_score (recent_posts client limit cutoff channel)).
Proof.
  unfold recent_posts. intros Hn.
  destruct (client channel limit) as [messages|e] eqn:Hc.
  - by rewrite (channel_entry_ok _ _ _ _ _ Hc Hn).
  - by rewrite (channel_entry_raises _ _ _ _ _ Hc).
Qed.

Lemma main_spec current_time disk client channels limit :
  let recent := recent_posts client limit (current_time - hours_24) in
  (forall c, c ∈ channels -> len (recent c) < 2 ^ 53) ->
  returned (fetch_top_posts_with_client current_time disk client channels limit) =
  sort_desc interaction_score
    (flat_map (fun c => take (Z.to_nat (spec_selected_count (len (recent c))))
                          (sort_desc interaction_score (recent c)))
       (channel_keys channels)).
Proof.
  intros recent Hlen. rewrite returned_final.
  destruct (analyse_selection current_time client channels limit) as [-> _].
  rewrite analyse_dict, flat_map_entries. f_equal.
  apply flat_map_ext_elem. intros c Hc. apply channel_entry_posts.
  apply Hlen. by apply channel_keys_elem_of.
Qed.

Lemma main_count current_time disk client channels limit :
  (forall c, c ∈ channels ->
     len (recent_posts client limit (current_time - hours_24) c) < 2 ^ 53) ->
  total_posts_selected (analyse current_time client channels limit).1 =
  len (returned (fetch_top_posts_with_client current_time disk client
                   channels limit)).
Proof.
  intros Hlen. rewrite returned_final.
  destruct (analyse_selection current_time client channels limit) as [-> ->].
  rewrite analyse_dict.
  rewrite <- sum_selected_len.
  - unfold len. by rewrite sort_desc_length.
  - intros c Hc. apply channel_entry_len. intros messages Hm.
    apply (proj1 (channel_keys_elem_of _ _)) in Hc. specialize (Hlen c Hc).
    unfold recent_posts in Hlen. by rewrite Hm in Hlen.
Qed.

(** The two counts agree for [n] posts, [n > 0], exactly when [n < 5] or
    [n] is a multiple of 5. *)
Lemma counts_agree_iff (n : Z) :
  0 <= n ->
  Z.max 1 (n / 5) = spec_selected_count n <-> 0 < n /\ (n < 5 \/ n mod 5 = 0).
Proof.
  intros Hn. unfold spec_selected_count.
  pose proof (ceil_fifth_bounds n) as Hc.
  pose proof (Z.div_mod n 5 ltac:(lia)) as Hd.
  pose proof (Z.mod_pos_bound n 5 ltac:(lia)) as Hm.
  set (q := n / 5) in *. set (r := n mod 5) in *. set (c := ceil_fifth n) in *.
  clearbody q r c.
  destruct (Z.eqb_spec n 0) as [->|Hne]; lia.
Qed.

Lemma take_agree_iff {A} (l : list A) :
  take (Z.to_nat (Z.max 1 (len l / 5))) l
  = take (Z.to_nat (spec_selected_count (len l))) l
  <-> len l < 5 \/ len l mod 5 = 0.
Proof.
  assert (Hn : 0 <= len l) by (unfold len; lia).
  destruct l as [|x l]; [by split; [left|]|].
  assert (Hpos : 0 < len (x :: l)) by (unfold len; simpl; lia).
  pose proof (counts_agree_iff _ Hn) as Hiff.
  pose proof (spec_selected_count_bounds _ Hn) as Hb.
  split.
  - intros Heq. apply (f_equal length) in Heq. rewrite !length_take in Heq.
    apply Hiff.
    pose proof (Z.div_mod (len (x :: l)) 5 ltac:(lia)) as Hd.
    pose proof (Z.mod_pos_bound (len (x :: l)) 5 ltac:(lia)) as Hm.
    unfold len in *.
    set (q := Z.of_nat (length (x :: l)) / 5) in *.
    set (r := Z.of_nat (length (x :: l)) mod 5) in *.
    clearbody q r. lia.
  - intros Hcond. by rewrite (proj2 Hiff (conj Hpos Hcond)).
Qed.

(** C5, amended. The two modules do not select alike; the theorem says what
    each selects and when the results coincide. For a run in which the
    recent posts of the listed channels, pooled, are [N < 2^52]:
    - the scraper sorts the pool, in which a channel counts as often as it
      is listed, takes [max(1, floor(N / 5))] as its count and returns that
      many posts from the top of the pool, unless the start or the
      disconnect of its client raises, and then it raises;
    - [main.py] returns, sorted, the best [max(1, ceil(n / 5))] of the [n]
      recent posts of each distinct channel, none for [n = 0], and its count
      is the number of posts it returns;
    - so the scraper returns the list of [main.py] exactly when its client
      starts and disconnects and the top of the pool is that merged list;
    - when no channel but one, listed once, has recent posts, the two lists
      are the same exactly when [N < 5] or [N] is a multiple of 5, and the
      two counts are the same exactly when moreover [N > 0]. *)
Theorem selections_compared (current_time : Z) (disk : disk_t)
    (telethon : Scraper.session) (channels : list pystr) (limit : Z) :
  let client := Scraper.answers telethon in
  let cutoff := current_time - hours_24 in
  let recent := recent_posts client limit cutoff in
  let pool := flat_map recent channels in
  let N := len pool in
  let pool_top :=
    take (Z.to_nat (Z.max 1 (N / 5))) (sort_desc interaction_score pool) in
  let channel_top c :=
    take (Z.to_nat (spec_selected_count (len (recent c))))
      (sort_desc interaction_score (recent c)) in
  let merged :=
    sort_desc interaction_score (flat_map channel_top (channel_keys channels)) in
  let scraper :=
    Scraper.fetch_top_posts_last_24h current_time telethon channels limit in
  let main := fetch_top_posts_with_client current_time disk client channels limit in
  let data := (analyse current_time client channels limit).1 in
  N < 2 ^ 52 ->
  (Scraper.select_top (Scraper.collect client limit cutoff channels)
   = Ok (Z.max 1 (N / 5), pool_top) /\
   scraper = match Scraper.start telethon, Scraper.disconnect telethon with
             | Some e, _ => Raise e
             | None, Some e => Raise e
             | None, None => Ok pool_top
             end) /\
  (returned main = merged /\
   total_posts_selected data = len (returned main)) /\
  (scraper = Ok (returned main) <->
   Scraper.start telethon = None /\ Scraper.disconnect telethon = None /\
   pool_top = merged) /\
  (forall name,
     (forall c, c ∈ channels -> c <> name -> recent c = []) ->
     (length (filter (fun c => c = name) channels) <= 1)%nat ->
     (pool_top = merged <-> N < 5 \/ N mod 5 = 0) /\
     (Z.max 1 (N / 5) = total_posts_selected data
      <-> 0 < N /\ (N < 5 \/ N mod 5 = 0))).
Proof.
  intros client cutoff recent pool N pool_top channel_top merged scraper main data HN.
  assert (Hlen : forall c, c ∈ channels -> len (recent c) < 2 ^ 53).
  { intros c Hc. pose proof (flat_map_length_elem recent channels c Hc) as Hle.
    fold pool in Hle. unfold N, len in *.
    change (2 ^ 52) with 4503599627370496 in HN.
    change (2 ^ 53) with 9007199254740992. lia. }
  assert (Hscraper : scraper = match Scraper.start telethon, Scraper.disconnect telethon with
             | Some e, _ => Raise e
             | None, Some e => Raise e
             | None, None => Ok pool_top
             end).
  { unfold scraper. rewrite (scraper_spec current_time telethon channels limit HN).
    by destruct (Scraper.start telethon), (Scraper.disconnect telethon). }
  assert (Hmain : returned main = merged)
    by exact (main_spec current_time disk client channels limit Hlen).
  assert (Hcount : total_posts_selected data = len (returned main))
    by exact (main_count current_time disk client channels limit Hlen).
  split; [split|split; [split|split]].
  - rewrite collect_spec. exact (scraper_select_spec pool HN).
  - exact Hscraper.
  - exact Hmain.
  - exact Hcount.
  - rewrite Hscraper, Hmain.
    destruct (Scraper.start telethon) as [e|], (Scraper.disconnect telethon) as [e'|];
      split; try (intros H; discriminate H); try (intros (H & _); discriminate H);
      try (intros (_ & H & _); discriminate H).
    + intros H. by injection H as ->.
    + by intros (_ & _ & ->).
  - intros name Hothers Hone.
    assert (Hsel : flat_map channel_top (channel_keys channels)
                   = take (Z.to_nat (spec_selected_count N))
                       (sort_desc interaction_score pool)).
    { rewrite (flat_map_single channel_top name (channel_keys channels)).
      - unfold N, pool. rewrite (flat_map_single recent name channels Hothers Hone).
        destruct (decide (name ∈ channel_keys channels)) as [Hin|Hin],
                 (decide (name ∈ channels)) as [Hin'|Hin']; try done.
        + exfalso. apply Hin'. by apply channel_keys_elem_of.
        + exfalso. apply Hin. by apply channel_keys_elem_of.
      - intros c Hc Hne. unfold channel_top.
        rewrite (Hothers c) by (done || by apply channel_keys_elem_of). done.
      - apply NoDup_filter_eq, ChannelListFacts.channel_keys_NoDup. }
    assert (Hmerged : merged = take (Z.to_nat (spec_selected_count N))
                                (sort_desc interaction_score pool)).
    { unfold merged. rewrite Hsel.
      apply sort_desc_sorted_id, take_sorted, sort_desc_sorted. }
    assert (HlenS : len (sort_desc interaction_score pool) = N)
      by (unfold N, len; by rewrite sort_desc_length).
    split.
    + unfold pool_top. rewrite Hmerged, <- HlenS. apply take_agree_iff.
    + rewrite Hcount, Hmain, Hmerged, <- HlenS, take_spec_len, HlenS.
      apply counts_agree_iff. unfold N, len. lia.
Qed.

Lemma selections_compared_witness :
  let channels := [str "down"; str "digest"; str "quiet"] in
  Scraper.fetch_top_posts_last_24h Sample.now SampleSession.session channels 50
  = Ok (returned (fetch_top_posts_with_client Sample.now Sample.good_disk
                    Sample.client channels 50)) /\
  Scraper.select_top
    (Scraper.collect Sample.client 50 (Sample.now - hours_24) channels)
  = Ok (1, [make_post (str "digest") (Sample.msg 105 2 900 10)]) /\
  total_posts_selected (analyse Sample.now Sample.client channels 50).1 = 1.
Proof.
  intros channels.
  destruct (selections_compared Sample.now Sample.good_disk SampleSession.session
              channels 50 ltac:(vm_compute; reflexivity))
    as ((Hselect & _) & _ & Hsame & Hsingle).
  destruct (Hsingle (str "digest")) as [Hlists Hcounts].
  { intros c Hc Hne.
    apply elem_of_cons in Hc as [->|Hc]; [reflexivity|].
    apply elem_of_cons in Hc as [->|Hc]; [done|].
    apply elem_of_cons in Hc as [->|Hc]; [reflexivity|].
    by apply elem_of_nil in Hc. }
  { vm_compute. lia. }
  split; [|split].
  - apply Hsame. split; [reflexivity|]. split; [reflexivity|].
    apply Hlists. right. reflexivity.
  - exact Hselect.
  - symmetry. apply Hcounts. split; [reflexivity|]. right. reflexivity.
Defined.

(** C5 as stated fails, and for more than one reason. Every run below has a
    client that starts and disconnects.
    - Rounding: over the sample channels, six recent posts in all, the
      scraper returns one post and [main.py] two.
    - Pooling: over [loud] and [calm], five recent posts each, both count
      two posts, but the scraper returns the two best of [loud] and
      [main.py] the best of each channel; so the selected sets differ even
      where the counts agree.
    - A channel listed twice is pooled twice by the scraper, which then
      returns its best post twice, and once by [main.py].
    - Without any recent post both return nothing, yet the scraper's count
      is 1 and that of [main.py] is 0. *)
Lemma selections_differ :
  ~ (forall current_time disk telethon channels limit,
       Scraper.start telethon = None -> Scraper.disconnect telethon = None ->
       exists selected,
         Scraper.fetch_top_posts_last_24h current_time telethon channels limit
         = Ok selected /\
         forall p, p ∈ selected <->
                   p ∈ returned (fetch_top_posts_with_client current_time disk
                                   (Scraper.answers telethon) channels limit)) /\
  (Scraper.fetch_top_posts_last_24h Sample.now SampleSession.session
     Sample.channels 50
   = Ok [make_post (str "news") (Sample.msg 105 2 900 10)] /\
   returned (fetch_top_posts_with_client Sample.now Sample.good_disk Sample.client
               Sample.channels 50)
   = [make_post (str "news") (Sample.msg 105 2 900 10);
      make_post (str "news") (Sample.msg 103 5 300 40)]) /\
  (Scraper.select_top
     (Scraper.collect SampleSession.two_channels 50 (Sample.now - hours_24)
        [str "loud"; str "calm"])
   = Ok (2, [make_post (str "loud") (Sample.msg 205 1 5000 0);
             make_post (str "loud") (Sample.msg 204 2 4000 0)]) /\
   Scraper.fetch_top_posts_last_24h Sample.now SampleSession.pooled
     [str "loud"; str "calm"] 50
   = Ok [make_post (str "loud") (Sample.msg 205 1 5000 0);
         make_post (str "loud") (Sample.msg 204 2 4000 0)] /\
   returned (fetch_top_posts_with_client Sample.now Sample.good_disk
               SampleSession.two_channels [str "loud"; str "calm"] 50)
   = [make_post (str "loud") (Sample.msg 205 1 5000 0);
      make_post (str "calm") (Sample.msg 305 1 50 0)] /\
   total_posts_selected
     (analyse Sample.now SampleSession.two_channels [str "loud"; str "calm"] 50).1
   = 2) /\
  (Scraper.fetch_top_posts_last_24h Sample.now SampleSession.session
     [str "digest"; str "digest"] 50
   = Ok [make_post (str "digest") (Sample.msg 105 2 900 10);
         make_post (str "digest") (Sample.msg 105 2 900 10)] /\
   returned (fetch_top_posts_with_client Sample.now Sample.good_disk Sample.client
               [str "digest"; str "digest"] 50)
   = [make_post (str "digest") (Sample.msg 105 2 900 10)]) /\
  (Scraper.select_top
     (Scraper.collect Sample.client 50 (Sample.now - hours_24)
        [str "down"; str "quiet"])
   = Ok (1, []) /\
   Scraper.fetch_top_posts_last_24h Sample.now SampleSession.session
     [str "down"; str "quiet"] 50 = Ok [] /\
   returned (fetch_top_posts_with_client Sample.now Sample.good_disk Sample.client
               [str "down"; str "quiet"] 50) = [] /\
   total_posts_selected
     (analyse Sample.now Sample.client [str "down"; str "quiet"] 50).1 = 0).
Proof.
  split; [|by vm_compute].
  intros H.
  destruct (H Sample.now Sample.good_disk SampleSession.pooled
              [str "loud"; str "calm"] 50 eq_refl eq_refl)
    as (selected & Hs & Hsame).
  vm_compute in Hs. injection Hs as <-.
  specialize (Hsame (make_post (str "calm") (Sample.msg 305 1 50 0))).
  destruct Hsame as [_ Hback].
  assert (Hin : make_post (str "calm") (Sample.msg 305 1 50 0)
                ∈ returned (fetch_top_posts_with_client Sample.now Sample.good_disk
                              (Scraper.answers SampleSession.pooled)
                              [str "loud"; str "calm"] 50)).
  { vm_compute. right. left. }
  apply Hback in Hin. vm_compute in Hin.
  apply elem_of_cons in Hin as [Heq|Hin]; [discriminate Heq|].
  apply elem_of_cons in Hin as [Heq|Hin]; [discriminate Heq|].
  by apply elem_of_nil in Hin.
Qed.

End SelectionFacts.
